(** * Bifrost HTTP transport: middlewares, UI handlers and entry point

    A shallow embedding of [transports/bifrost-http/handlers]: the
    middleware file ([CorsMiddleware], [TransportInterceptorMiddleware],
    [ChainMiddlewares], [AdminAuthMiddleware], [isPublicPath]) and [ui.go]
    (the constructors, [RegisterRoutes], [serveDashboard], [loginPage],
    [loginSubmit], [logout]); and of the argument parsing of
    [transports/docker-entrypoint.sh].

    Go strings are byte strings: they are modelled by [string], whose
    characters are the 256 bytes.  A Go [map[string]V] is a finite map that
    may be [nil]: it is modelled by [option (gmap string V)], [None] being the
    nil map.  A handler mutates its [*fasthttp.RequestCtx] and writes to the
    package logger: it is modelled as a function on [RequestCtx] values that
    carry the request, the response and the warnings logged so far.  A
    middleware takes the next handler and gives a handler, as in the source.
    The shell of the entry point is a state of positional parameters,
    variables and output lines, and its loop a step function run on fuel.

    The file has three parts: the library functions the handlers call
    ([strings], [net/url], [path], [mime], [encoding/json], [fasthttp]), the
    handlers and the script themselves, and the properties with their
    proofs. *)

From Stdlib Require Import ZArith Ascii String List Lia.
From stdpp Require Import base option list gmap strings sorting pretty.

Set Warnings "-register-all".

(** ** Byte strings *)

Definition byte_string (bs : list N) : string :=
  foldr (λ b s, String (ascii_of_N b) s) EmptyString bs.

Fixpoint string_drop (n : nat) (s : string) : string :=
  match n, s with
  | S n', String _ s' => string_drop n' s'
  | _, _ => s
  end.

Fixpoint string_take (n : nat) (s : string) : string :=
  match n, s with
  | S n', String c s' => String c (string_take n' s')
  | _, _ => EmptyString
  end.

Fixpoint string_map (f : ascii → ascii) (s : string) : string :=
  match s with
  | EmptyString => EmptyString
  | String c s' => String (f c) (string_map f s')
  end.

Fixpoint string_concat_map (f : ascii → string) (s : string) : string :=
  match s with
  | EmptyString => EmptyString
  | String c s' => f c +:+ string_concat_map f s'
  end.

(** [p] is a prefix of [s]. *)
Fixpoint string_prefix (p s : string) : bool :=
  match p with
  | EmptyString => true
  | String a p' =>
      match s with
      | EmptyString => false
      | String b s' => Ascii.eqb a b && string_prefix p' s'
      end
  end.

Definition between (lo hi : N) (c : ascii) : bool :=
  let n := N_of_ascii c in (lo <=? n)%N && (n <=? hi)%N.

Definition quote : string := byte_string [34%N].

(** ** Package [strings] *)

Definition strings_HasPrefix (s prefix : string) : bool := string_prefix prefix s.

Definition strings_HasSuffix (s suffix : string) : bool :=
  string_prefix (String.rev suffix) (String.rev s).

(** [strings.TrimSuffix]: [s] without the trailing [suffix], or [s] itself. *)
Definition strings_TrimSuffix (s suffix : string) : string :=
  if strings_HasSuffix s suffix
  then string_take (String.length s - String.length suffix) s
  else s.

Fixpoint strings_Contains (s substr : string) : bool :=
  string_prefix substr s ||
  match s with
  | EmptyString => false
  | String _ s' => strings_Contains s' substr
  end.

(** The white space of [unicode.IsSpace], each code point in its UTF-8
    encoding: U+0009..U+000D, U+0020, U+0085, U+00A0, U+1680,
    U+2000..U+200A, U+2028, U+2029, U+202F, U+205F, U+3000. *)
Definition unicodeSpaces : list string :=
  map byte_string
    [ [9]; [10]; [11]; [12]; [13]; [32];
      [194; 133]; [194; 160];
      [225; 154; 128];
      [226; 128; 128]; [226; 128; 129]; [226; 128; 130]; [226; 128; 131];
      [226; 128; 132]; [226; 128; 133]; [226; 128; 134]; [226; 128; 135];
      [226; 128; 136]; [226; 128; 137]; [226; 128; 138];
      [226; 128; 168]; [226; 128; 169]; [226; 128; 175];
      [226; 129; 159];
      [227; 128; 128] ]%N.

(** One white-space rune taken off the front of [s], if [s] starts with one. *)
Definition stripSpace (s : string) : option string :=
  (λ sp, string_drop (String.length sp) s) <$>
    find (λ sp, string_prefix sp s) unicodeSpaces.

(** The same at the end of the string, on the reversed bytes. *)
Definition stripSpaceRev (r : string) : option string :=
  (λ sp, string_drop (String.length sp) r) <$>
    find (λ sp, string_prefix (String.rev sp) r) unicodeSpaces.

Fixpoint trimLeftSpace (fuel : nat) (s : string) : string :=
  match fuel with
  | O => s
  | S fuel' =>
      match stripSpace s with
      | Some s' => trimLeftSpace fuel' s'
      | None => s
      end
  end.

Fixpoint trimRightSpaceRev (fuel : nat) (r : string) : string :=
  match fuel with
  | O => r
  | S fuel' =>
      match stripSpaceRev r with
      | Some r' => trimRightSpaceRev fuel' r'
      | None => r
      end
  end.

(** [strings.TrimSpace]: leading, then trailing white space removed.  Every
    step removes a byte at least, so the length of the string is fuel enough. *)
Definition strings_TrimSpace (s : string) : string :=
  let l := trimLeftSpace (String.length s) s in
  String.rev (trimRightSpaceRev (String.length l) (String.rev l)).

(** [strings.ToLower] and [strings.EqualFold] on ASCII text: the letters A..Z
    are mapped to a..z and every other byte is kept.  (On text outside ASCII
    Go also folds the letters of other scripts; none of the constants the
    handlers compare with contains such a letter.) *)
Definition toLowerByte (c : ascii) : ascii :=
  if between 65 90 c then ascii_of_N (N_of_ascii c + 32) else c.

Definition strings_ToLower (s : string) : string := string_map toLowerByte s.

Definition strings_EqualFold (s t : string) : bool :=
  String.eqb (strings_ToLower s) (strings_ToLower t).

(** ** Package [net/url] *)

Definition hexDigit (n : N) : ascii :=
  ascii_of_N (if (n <? 10)%N then 48 + n else 55 + n).

(** [shouldEscape c encodeQueryComponent]: everything but the unreserved
    characters of RFC 3986. *)
Definition shouldEscape (c : ascii) : bool :=
  negb (between 97 122 c || between 65 90 c || between 48 57 c
        || Ascii.eqb c "-" || Ascii.eqb c "_" || Ascii.eqb c "." || Ascii.eqb c "~").

Definition escapeByte (c : ascii) : string :=
  if Ascii.eqb c " " then "+"
  else if shouldEscape c
  then String "%" (String (hexDigit (N_of_ascii c / 16))
                     (String (hexDigit (N_of_ascii c mod 16)) EmptyString))
  else String c EmptyString.

Definition url_QueryEscape (s : string) : string := string_concat_map escapeByte s.

(** ** Packages [path] and [path/filepath] (Unix) *)

(** The elements of a path between its slashes, the empty ones included. *)
Fixpoint splitSlash (s : string) : list string :=
  match s with
  | EmptyString => [EmptyString]
  | String c s' =>
      if Ascii.eqb c "/" then EmptyString :: splitSlash s'
      else match splitSlash s' with
           | e :: es => String c e :: es
           | [] => [String c EmptyString]
           end
  end.

Fixpoint joinSlash (es : list string) : string :=
  match es with
  | [] => EmptyString
  | [e] => e
  | e :: es' => e +:+ "/" +:+ joinSlash es'
  end.

(** One element pushed on the cleaned elements [out] (innermost first):
    empty and [.] elements vanish, [..] removes the element before it, stays
    when there is none to remove in a relative path, and vanishes at the root. *)
Definition cleanElement (rooted : bool) (out : list string) (e : string) : list string :=
  if String.eqb e "" || String.eqb e "." then out
  else if String.eqb e ".."
  then match out with
       | [] => if rooted then [] else [".."]
       | top :: out' => if String.eqb top ".." then e :: out else out'
       end
  else e :: out.

(** [path.Clean]: the shortest path equivalent to [p] by lexical processing. *)
Definition path_Clean (p : string) : string :=
  let rooted := strings_HasPrefix p "/" in
  let out := rev (foldl (cleanElement rooted) [] (splitSlash p)) in
  if rooted then "/" +:+ joinSlash out
  else if String.eqb (joinSlash out) "" then "." else joinSlash out.

Fixpoint dropSlashes (r : string) : string :=
  match r with
  | String c r' => if Ascii.eqb c "/" then dropSlashes r' else r
  | EmptyString => r
  end.

Fixpoint untilSlash (r : string) : string :=
  match r with
  | String c r' => if Ascii.eqb c "/" then EmptyString else String c (untilSlash r')
  | EmptyString => EmptyString
  end.

(** [filepath.Base]: the last element of the path, trailing slashes removed. *)
Definition filepath_Base (p : string) : string :=
  if String.eqb p "" then "."
  else
    let stripped := dropSlashes (String.rev p) in
    let last := String.rev (untilSlash stripped) in
    if String.eqb last "" then "/" else last.

(** [filepath.Ext]: the suffix of the last element that starts at its final
    dot, empty when it has none.  The scan runs on the reversed bytes and
    returns the reversed suffix. *)
Fixpoint extRev (r : string) : option string :=
  match r with
  | EmptyString => None
  | String c r' =>
      if Ascii.eqb c "/" then None
      else if Ascii.eqb c "." then Some (String c EmptyString)
      else String c <$> extRev r'
  end.

Definition filepath_Ext (p : string) : string :=
  match extRev (String.rev p) with
  | Some e => String.rev e
  | None => EmptyString
  end.

(** ** Package [mime] *)

(** [mime.TypeByExtension] on the table built into the package (a host's
    mime.types files may add to it). *)
Definition builtinTypes : list (string * string) :=
  [ (".avif", "image/avif");
    (".css", "text/css; charset=utf-8");
    (".gif", "image/gif");
    (".htm", "text/html; charset=utf-8");
    (".html", "text/html; charset=utf-8");
    (".jpeg", "image/jpeg");
    (".jpg", "image/jpeg");
    (".js", "text/javascript; charset=utf-8");
    (".json", "application/json");
    (".mjs", "text/javascript; charset=utf-8");
    (".pdf", "application/pdf");
    (".png", "image/png");
    (".svg", "image/svg+xml");
    (".wasm", "application/wasm");
    (".webp", "image/webp");
    (".xml", "text/xml; charset=utf-8") ].

Definition findArg (k : string) (l : list (string * string)) : option string :=
  snd <$> find (λ kv, String.eqb (fst kv) k) l.

Definition mime_TypeByExtension (ext : string) : string :=
  match findArg ext builtinTypes with
  | Some t => t
  | None => default EmptyString (findArg (strings_ToLower ext) builtinTypes)
  end.

(** ** Package [encoding/json] *)

(** The outcome of a Go call that returns a value or an [error]; the error is
    kept as its message. *)
Inductive result (A : Type) : Type :=
| Ok (a : A)
| Err (msg : string).
Arguments Ok {A} a.
Arguments Err {A} msg.

Definition result_map {A B} (f : A → B) (r : result A) : result B :=
  match r with
  | Ok a => Ok (f a)
  | Err msg => Err msg
  end.

(** The first error of a list of outcomes, or all their values. *)
Fixpoint result_all {A} (rs : list (result A)) : result (list A) :=
  match rs with
  | [] => Ok []
  | Ok a :: rs' => result_map (cons a) (result_all rs')
  | Err msg :: _ => Err msg
  end.

(** The values a [map[string]any] request body holds: what [json.Unmarshal]
    builds (nil, booleans, numbers, strings, slices, maps) and a value that
    [json.Marshal] rejects (a channel, a function, a complex number), named by
    its type.  A number stands for an integer ([int], [int64], or a [float64]
    whose value is an integer below 1e21), which Go prints in decimal. *)
Inductive any : Type :=
| ANil
| ABool (b : bool)
| ANumber (z : Z)
| AString (s : string)
| ASlice (l : list any)
| AMap (m : gmap string any)
| AUnsupported (type : string).

(** A Go map value: [None] is the nil map. *)
Abbreviation gomap V := (option (gmap string V)).

Definition hexLower (n : N) : ascii :=
  ascii_of_N (if (n <? 10)%N then 48 + n else 87 + n).

(** A byte of a string as [json.Marshal] writes it (with its default HTML
    escaping).  Bytes from 0x80 on are copied: the text is taken to be valid
    UTF-8 without U+2028 and U+2029. *)
Definition encodeByte (c : ascii) : string :=
  let n := N_of_ascii c in
  if (n =? 34)%N then String "\" quote
  else if (n =? 92)%N then "\\"
  else if (n =? 8)%N then "\b"
  else if (n =? 12)%N then "\f"
  else if (n =? 10)%N then "\n"
  else if (n =? 13)%N then "\r"
  else if (n =? 9)%N then "\t"
  else if (n <? 32)%N || (n =? 38)%N || (n =? 60)%N || (n =? 62)%N
  then "\u00" +:+ String (hexLower (n / 16)) (String (hexLower (n mod 16)) EmptyString)
  else String c EmptyString.

Definition encodeString (s : string) : string :=
  quote +:+ string_concat_map encodeByte s +:+ quote.

Fixpoint joinComma (parts : list string) : string :=
  match parts with
  | [] => EmptyString
  | [p] => p
  | p :: parts' => p +:+ "," +:+ joinComma parts'
  end.

Definition key_le (x y : string * result string) : Prop :=
  String.leb (fst x) (fst y) = true.

Global Instance key_le_dec x y : Decision (key_le x y).
Proof. unfold key_le. apply _. Defined.

Definition encodeMember (kv : string * result string) : result string :=
  result_map (λ v, encodeString (fst kv) +:+ ":" +:+ v) (snd kv).

(** An object from its members, already encoded: keys in byte order, the
    first failing member failing the whole. *)
Definition encodeObject (m : gmap string (result string)) : result string :=
  result_map (λ parts, "{" +:+ joinComma parts +:+ "}")
    (result_all (encodeMember <$> merge_sort key_le (map_to_list m))).

Fixpoint encodeValue (v : any) : result string :=
  match v with
  | ANil => Ok "null"
  | ABool b => Ok (if b then "true" else "false")
  | ANumber z => Ok (pretty z)
  | AString s => Ok (encodeString s)
  | ASlice l =>
      result_map (λ parts, "[" +:+ joinComma parts +:+ "]")
        (result_all (encodeValue <$> l))
  | AMap m => encodeObject (encodeValue <$> m)
  | AUnsupported type => Err ("json: unsupported type: " +:+ type)
  end.

(** [json.Marshal] of a [map[string]any]: a nil map is written [null]. *)
Definition json_Marshal (body : gomap any) : result string :=
  match body with
  | None => Ok "null"
  | Some m => encodeValue (AMap m)
  end.

(** ** Package [fasthttp] *)

(** Headers, cookies and form arguments are [[]argsKV] slices: ordered pairs,
    a name possibly more than once.  Names are taken in the canonical form
    fasthttp gives them, so that they compare as strings. *)
Abbreviation args := (list (string * string)).

(** [Peek]: the value of the first pair named [key], empty when there is none. *)
Definition peekArg (key : string) (h : args) : string :=
  default EmptyString (findArg key h).

(** [setArg]: the first pair named [key] gets the value, a new pair is
    appended when there is none. *)
Fixpoint setArg (key value : string) (h : args) : args :=
  match h with
  | [] => [(key, value)]
  | kv :: h' =>
      if String.eqb (fst kv) key then (fst kv, value) :: h'
      else kv :: setArg key value h'
  end.

(** [delAllArgs]: every pair named [key] removed. *)
Definition delAllArgs (key : string) (h : args) : args :=
  filter (λ kv, fst kv ≠ key) h.



Record Cookie := mkCookie {
  cookieKey : string;
  cookieValue : string;
  cookiePath : string;
  cookieHTTPOnly : bool;
  cookieExpire : option Z;   (* seconds since the epoch; [None]: no expiry set *)
  cookieMaxAge : Z           (* 0: no max-age set *)
}.

Record Request := mkRequest {
  reqMethod : string;
  reqPath : string;          (* ctx.Path() *)
  reqRequestURI : string;    (* ctx.Request.URI().RequestURI() *)
  reqHeader : args;
  reqCookies : args;         (* the request header's parsed cookies *)
  reqQueryArgs : args;
  reqPostArgs : args;
  reqBody : string
}.

(** A response body is raw bytes, or the structured error of [SendError]. *)
Inductive ResponseBody : Type :=
| BodyBytes (bytes : string)
| BodyError (status : Z) (message : string).

Record Response := mkResponse {
  respStatusCode : Z;
  respContentType : string;
  respHeader : args;
  respCookies : list Cookie;
  respBody : ResponseBody
}.

(** The request context, with the warnings written to the logger so far. *)
Record RequestCtx := mkCtx {
  ctxRequest : Request;
  ctxResponse : Response;
  ctxWarnings : list string
}.

Abbreviation RequestHandler := (RequestCtx → RequestCtx).

(** [lib.BifrostHTTPMiddleware] *)
Abbreviation BifrostHTTPMiddleware := (RequestHandler → RequestHandler).

Definition StatusOK : Z := 200.
Definition StatusFound : Z := 302.
Definition StatusBadRequest : Z := 400.
Definition StatusUnauthorized : Z := 401.
Definition StatusForbidden : Z := 403.
Definition StatusNotFound : Z := 404.
Definition StatusInternalServerError : Z := 500.
Definition StatusServiceUnavailable : Z := 503.
Definition MethodGet : string := "GET".
Definition MethodPost : string := "POST".

(** A fresh response: fasthttp reports status 200 and the default content
    type until the handler sets others. *)
Definition emptyResponse : Response :=
  mkResponse StatusOK "text/plain; charset=utf-8" [] [] (BodyBytes EmptyString).

Definition withResponse (f : Response → Response) (ctx : RequestCtx) : RequestCtx :=
  mkCtx (ctxRequest ctx) (f (ctxResponse ctx)) (ctxWarnings ctx).

Definition withRequest (f : Request → Request) (ctx : RequestCtx) : RequestCtx :=
  mkCtx (f (ctxRequest ctx)) (ctxResponse ctx) (ctxWarnings ctx).

Definition SetStatusCode (code : Z) : RequestCtx → RequestCtx :=
  withResponse (λ r, mkResponse code (respContentType r) (respHeader r) (respCookies r) (respBody r)).

Definition SetContentType (ct : string) : RequestCtx → RequestCtx :=
  withResponse (λ r, mkResponse (respStatusCode r) ct (respHeader r) (respCookies r) (respBody r)).

Definition SetResponseBody (b : ResponseBody) : RequestCtx → RequestCtx :=
  withResponse (λ r, mkResponse (respStatusCode r) (respContentType r) (respHeader r) (respCookies r) b).

Definition SetBodyString (s : string) : RequestCtx → RequestCtx :=
  SetResponseBody (BodyBytes s).

(** [ctx.Response.Header.Set] *)
Definition ResponseHeaderSet (key value : string) : RequestCtx → RequestCtx :=
  withResponse (λ r, mkResponse (respStatusCode r) (respContentType r)
                       (setArg key value (respHeader r)) (respCookies r) (respBody r)).

Fixpoint setCookie (c : Cookie) (cs : list Cookie) : list Cookie :=
  match cs with
  | [] => [c]
  | c' :: cs' =>
      if String.eqb (cookieKey c') (cookieKey c) then c :: cs'
      else c' :: setCookie c cs'
  end.

(** [ctx.Response.Header.SetCookie] *)
Definition ResponseSetCookie (c : Cookie) : RequestCtx → RequestCtx :=
  withResponse (λ r, mkResponse (respStatusCode r) (respContentType r)
                       (respHeader r) (setCookie c (respCookies r)) (respBody r)).

(** [ctx.Request.SetBody], [ctx.Request.Header.Set] and [.Del] *)
Definition RequestSetBody (body : string) : RequestCtx → RequestCtx :=
  withRequest (λ r, mkRequest (reqMethod r) (reqPath r) (reqRequestURI r)
                      (reqHeader r) (reqCookies r) (reqQueryArgs r) (reqPostArgs r) body).

Definition withRequestHeader (f : args → args) : RequestCtx → RequestCtx :=
  withRequest (λ r, mkRequest (reqMethod r) (reqPath r) (reqRequestURI r)
                      (f (reqHeader r)) (reqCookies r) (reqQueryArgs r)
                      (reqPostArgs r) (reqBody r)).

Definition RequestHeaderSet (key value : string) : RequestCtx → RequestCtx :=
  withRequestHeader (setArg key value).

Definition RequestHeaderDel (key : string) : RequestCtx → RequestCtx :=
  withRequestHeader (delAllArgs key).

Definition RequestHeaderPeek (key : string) (ctx : RequestCtx) : string :=
  peekArg key (reqHeader (ctxRequest ctx)).

(** [logger.Warn] *)
Definition logger_Warn (msg : string) (ctx : RequestCtx) : RequestCtx :=
  mkCtx (ctxRequest ctx) (ctxResponse ctx) (ctxWarnings ctx ++ [msg]).

(** Modelled from the spec: [SendError], the shared helper of the handlers
    package, whose file is not among the sources.  It answers with the status
    code and a structured body that holds the status and the message. *)
Definition SendError (ctx : RequestCtx) (statusCode : Z) (message : string) : RequestCtx :=
  SetResponseBody (BodyError statusCode message) (SetStatusCode statusCode ctx).

(** ** Configuration and plugins *)

(** What [plugin.TransportInterceptor] returns. *)
Record Intercepted := mkIntercepted {
  modifiedHeaders : gomap string;
  modifiedBody : gomap any;
  interceptErr : option string
}.

(** [schemas.Plugin], as far as the transport uses it: a name and the
    transform of a request's URI, headers and body.  A plugin is taken to
    leave the maps it is handed as they are and to answer with maps of its
    own. *)
Record Plugin := mkPlugin {
  GetName : string;
  TransportInterceptor : string → gomap string → gomap any → Intercepted
}.

Record Config := mkConfig {
  AdminSecret : string;
  AdminCookieName : string;
  GetLoadedPlugins : list Plugin
}.

(** [governance.PluginName]; its package is not among the sources, and no
    result below depends on the value. *)
Definition governance_PluginName : string := "governance".

(** ** The middlewares *)

Section Cors.

(** [IsOriginAllowed] is a helper of the handlers package whose file is not
    among the sources, and [config.ClientConfig.AllowedOrigins] is the field
    of the configuration it is handed: both are parameters of the
    development, so that what is proved of [CorsMiddleware] holds for every
    allow decision. *)
Variable IsOriginAllowed : string → list string → bool.
Variable AllowedOrigins : Config → list string.

Definition CorsMiddleware (config : Config) : BifrostHTTPMiddleware := λ next ctx,
  let origin := RequestHeaderPeek "Origin" ctx in
  let allowed := IsOriginAllowed origin (AllowedOrigins config) in
  let ctx :=
    if allowed
    then
      let ctx := ResponseHeaderSet "Access-Control-Allow-Origin" origin ctx in
      let ctx := ResponseHeaderSet "Access-Control-Allow-Methods"
                   "GET, POST, PUT, DELETE, OPTIONS" ctx in
      let ctx := ResponseHeaderSet "Access-Control-Allow-Headers"
                   "Content-Type, Authorization, X-Requested-With" ctx in
      let ctx := ResponseHeaderSet "Access-Control-Allow-Credentials" "true" ctx in
      ResponseHeaderSet "Access-Control-Max-Age" "86400" ctx
    else ctx in
  if String.eqb (reqMethod (ctxRequest ctx)) "OPTIONS"
  then
    if allowed then SetStatusCode StatusOK ctx
    else SetStatusCode StatusForbidden ctx
  else next ctx.

End Cors.

(** [ChainMiddlewares]: the loop [for i := len(middlewares) - 1; i >= 0; i--]
    with [left] rounds to go, the next one at index [left - 1]. *)
Fixpoint chainLoop {H : Type} (middlewares : list (H → H)) (left : nat) (chained : H) : H :=
  match left with
  | O => chained
  | S i =>
      chainLoop middlewares i
        (match middlewares !! i with
         | Some m => m chained
         | None => chained
         end)
  end.

Definition ChainMiddlewares {H : Type} (handler : H) (middlewares : list (H → H)) : H :=
  if decide (length middlewares = 0) then handler
  else chainLoop middlewares (length middlewares) handler.

Definition isPublicPath (method path : string) : bool :=
  if String.eqb path "/metrics" && String.eqb method MethodGet then true
  else if strings_HasPrefix path "/v1/" && String.eqb method MethodPost then true
  else if (strings_HasPrefix path "/openai/" || strings_HasPrefix path "/openai/v1/")
          && String.eqb method MethodPost then true
  else if (String.eqb path "/openai/models" || String.eqb path "/openai/v1/models")
          && String.eqb method MethodGet then true
  else if strings_HasPrefix path "/admin/login" then true
  else if String.eqb path "/api/version" && String.eqb method MethodGet then true
  else false.

(** The bearer check of [AdminAuthMiddleware]: the prefix is looked for in
    the trimmed header, the token is cut from the header as it came,
    [auth[len("Bearer "):]]. *)
Definition bearerMatches (auth secret : string) : bool :=
  negb (String.eqb auth "")
  && strings_HasPrefix (strings_ToLower (strings_TrimSpace auth)) "bearer "
  && String.eqb (strings_TrimSpace (string_drop (String.length "Bearer ") auth)) secret.

Definition cookieMatches (c secret : string) : bool :=
  negb (String.eqb c "") && String.eqb c secret.

Definition AdminAuthMiddleware (config : Config) : BifrostHTTPMiddleware := λ next ctx,
  if String.eqb (strings_TrimSpace (AdminSecret config)) "" then next ctx
  else
    let method := reqMethod (ctxRequest ctx) in
    let path := reqPath (ctxRequest ctx) in
    if isPublicPath method path then next ctx
    else if bearerMatches (RequestHeaderPeek "Authorization" ctx) (AdminSecret config)
    then next ctx
    else if cookieMatches (peekArg (AdminCookieName config) (reqCookies (ctxRequest ctx)))
              (AdminSecret config)
    then next ctx
    else
      let accepts := RequestHeaderPeek "Accept" ctx in
      let xrw := RequestHeaderPeek "X-Requested-With" ctx in
      let wantsJSON :=
        strings_Contains (strings_ToLower accepts) "application/json"
        || strings_EqualFold xrw "XMLHttpRequest"
        || strings_HasPrefix path "/api/" in
      if wantsJSON || strings_HasPrefix path "/v1/" || strings_HasPrefix path "/api/"
      then SendError ctx StatusUnauthorized "admin authentication required"
      else
        let nextParam := url_QueryEscape path in
        SetStatusCode StatusFound
          (ResponseHeaderSet "Location" ("/admin/login?next=" +:+ nextParam) ctx).

(** [headers[name]] on a map that may be nil. *)
Definition mapGet {V} (name : string) (m : gomap V) : option V :=
  m ≫= (λ m', m' !! name).

(** The pairs a [range] over the map visits.  Go leaves their order open; the
    model takes the order of [map_to_list].  The order decides where the
    headers that are new to the request are appended, and nothing else: what
    a header reads as afterwards is the same for every order (the pairs have
    distinct names, see [findArg_sets]). *)
Definition mapRange {V} (m : gomap V) : list (string * V) :=
  match m with
  | Some m' => map_to_list m'
  | None => []
  end.

(** The header walk of the interceptor: the map (a later value of a name
    replaces an earlier one) and the names in the order they came. *)
Definition parseHeaders (h : args) : gmap string string * list string :=
  foldl (λ acc kv, (<[fst kv := snd kv]> (fst acc), snd acc ++ [fst kv])) (∅, []) h.

(** The state of the plugin loop: the context (for the logger), [headers] and
    [requestBody]. *)
Record Working := mkWorking {
  wCtx : RequestCtx;
  wHeaders : gomap string;
  wBody : gomap any
}.

(** What the plugin answers in the working state [w]. *)
Definition invoke (plugin : Plugin) (w : Working) : Intercepted :=
  TransportInterceptor plugin (reqRequestURI (ctxRequest (wCtx w))) (wHeaders w) (wBody w).

(** The warning logged for a plugin that failed with [err]. *)
Definition pluginWarning (plugin : Plugin) (err : string) : string :=
  "TransportInterceptor: Plugin '" +:+ GetName plugin +:+ "' returned error: " +:+ err.

(** One round of the loop over the plugins. *)
Definition interceptPlugin (w : Working) (plugin : Plugin) : Working :=
  let r := invoke plugin w in
  match interceptErr r with
  | Some err => mkWorking (logger_Warn (pluginWarning plugin err) (wCtx w)) (wHeaders w) (wBody w)
  | None =>
      mkWorking (wCtx w)
        (if modifiedHeaders r is Some _ then modifiedHeaders r else wHeaders w)
        (if modifiedBody r is Some _ then modifiedBody r else wBody w)
  end.

Definition interceptAll (plugins : list Plugin) (w : Working) : Working :=
  foldl interceptPlugin w plugins.

(** The headers of the request brought in line with the final map: the
    original names that left the map are deleted, every pair of the map is
    set. *)
Definition deleteRemoved (headers : gomap string) (originalHeaderNames : list string)
    (ctx : RequestCtx) : RequestCtx :=
  foldl (λ c name, if mapGet name headers is Some _ then c else RequestHeaderDel name c)
    ctx originalHeaderNames.

Definition setModified (headers : gomap string) (ctx : RequestCtx) : RequestCtx :=
  foldl (λ c kv, RequestHeaderSet (fst kv) (snd kv) c) ctx (mapRange headers).

(** The search for the governance plugin among the loaded ones. *)
Definition hasGovernance (plugins : list Plugin) : bool :=
  existsb (λ p, String.eqb (GetName p) governance_PluginName) plugins.

Section TransportInterceptor.

(** [json.Unmarshal] of the body bytes into a [map[string]any]: the decoder
    is a parameter of the development.  It answers with the map (the nil map
    for the JSON text [null]) or an error. *)
Variable json_Unmarshal : string → result (gomap any).

(** [requestBody] before the plugins run: the empty map of [make], filled by
    the decoder when the body has bytes. *)
Definition decodeBody (ctx : RequestCtx) : result (gomap any) :=
  let bodyBytes := reqBody (ctxRequest ctx) in
  if decide (0 < String.length bodyBytes) then json_Unmarshal bodyBytes
  else Ok (Some ∅).

Definition TransportInterceptorMiddleware (config : Config) : BifrostHTTPMiddleware :=
  λ next ctx,
  let plugins := GetLoadedPlugins config in
  if decide (length plugins = 0) then next ctx
  else
    if negb (hasGovernance plugins) then next ctx
    else
      let headers := fst (parseHeaders (reqHeader (ctxRequest ctx))) in
      let originalHeaderNames := snd (parseHeaders (reqHeader (ctxRequest ctx))) in
      match decodeBody ctx with
      | Err err =>
          next (logger_Warn
                  ("TransportInterceptor: Failed to unmarshal request body: " +:+ err) ctx)
      | Ok requestBody =>
          let w := interceptAll plugins (mkWorking ctx (Some headers) requestBody) in
          match json_Marshal (wBody w) with
          | Err err =>
              SendError (wCtx w) StatusInternalServerError
                ("TransportInterceptor: Failed to marshal request body: " +:+ err)
          | Ok updatedBody =>
              next (setModified (wHeaders w)
                      (deleteRemoved (wHeaders w) originalHeaderNames
                         (RequestSetBody updatedBody (wCtx w))))
          end
      end.

End TransportInterceptor.

(** ** ui.go *)

(** [UIHandler]: the embedded files by name, and the configuration, which may
    be nil. *)
Record UIHandler := mkUIHandler {
  uiContent : gmap string string;
  config : option Config
}.

(** [NewUIHandler] leaves the configuration nil; [NewUIHandlerWithDeps] takes
    one (a pointer, which may be nil). *)
Definition NewUIHandler (uiContent : gmap string string) : UIHandler :=
  mkUIHandler uiContent None.

Definition NewUIHandlerWithDeps (uiContent : gmap string string) (config : option Config)
    : UIHandler :=
  mkUIHandler uiContent config.

(** [h.uiContent.ReadFile] *)
Definition ReadFile (h : UIHandler) (name : string) : option string :=
  uiContent h !! name.

(** The end of [serveDashboard]: content type, cache headers and body. *)
Definition sendFile (cleanPath data : string) (ctx : RequestCtx) : RequestCtx :=
  let ext := filepath_Ext cleanPath in
  let contentType := mime_TypeByExtension ext in
  let contentType :=
    if String.eqb contentType "" then "application/octet-stream" else contentType in
  let ctx := SetContentType contentType ctx in
  let ctx :=
    if strings_HasPrefix cleanPath "ui/_next/static/"
    then ResponseHeaderSet "Cache-Control" "public, max-age=31536000, immutable" ctx
    else if String.eqb ext ".html"
    then ResponseHeaderSet "Cache-Control" "no-cache" ctx
    else ResponseHeaderSet "Cache-Control" "public, max-age=3600" ctx in
  SetResponseBody (BodyBytes data) ctx.

Definition notFound (msg : string) (ctx : RequestCtx) : RequestCtx :=
  SetBodyString msg (SetStatusCode StatusNotFound ctx).

Definition serveDashboard (h : UIHandler) : RequestHandler := λ ctx,
  let requestPath := reqPath (ctxRequest ctx) in
  let cleanPath := path_Clean requestPath in
  let cleanPath :=
    if strings_HasSuffix cleanPath ".txt"
    then
      let basePath := strings_TrimSuffix cleanPath ".txt" in
      let basePath :=
        if String.eqb basePath "/" || String.eqb basePath "" then "/index" else basePath in
      basePath +:+ "/index.txt"
    else cleanPath in
  let cleanPath :=
    if String.eqb cleanPath "/" then "ui/index.html" else "ui" +:+ cleanPath in
  let hasExtension := strings_Contains (filepath_Base cleanPath) "." in
  match ReadFile h cleanPath with
  | Some data => sendFile cleanPath data ctx
  | None =>
      if hasExtension
      then notFound ("404 - Static asset not found: " +:+ requestPath) ctx
      else if negb hasExtension
      then
        let indexPath := cleanPath +:+ "/index.html" in
        match ReadFile h indexPath with
        | Some data => sendFile indexPath data ctx
        | None =>
            match ReadFile h "ui/index.html" with
            | None => notFound "404 - File not found" ctx
            | Some data => sendFile "ui/index.html" data ctx
            end
        end
      else notFound "404 - File not found" ctx
  end.

(** The login form of [loginPage], the [next] target in its hidden field. *)
Definition loginForm (next : string) : string :=
  let nl := byte_string [10%N] in
  let attr name value := name +:+ "=" +:+ quote +:+ value +:+ quote in
  "<!doctype html>" +:+ nl
  +:+ "<html><head><meta " +:+ attr "charset" "utf-8"
  +:+ "><title>Bifrost Admin Login</title>" +:+ nl
  +:+ "<style>body{font-family:system-ui,-apple-system,Segoe UI,Roboto,Ubuntu,Cantarell,Noto Sans,sans-serif;max-width:420px;margin:10vh auto;padding:24px}form{display:flex;flex-direction:column;gap:12px}input[type=password]{padding:10px;font-size:16px}button{padding:10px 14px;font-size:16px;cursor:pointer}</style>"
  +:+ nl
  +:+ "</head><body>" +:+ nl
  +:+ "<h2>Admin Login</h2>" +:+ nl
  +:+ "<p>To obtain the admin password, run <code>operator bifrost password</code> locally.</p>"
  +:+ nl
  +:+ "<form " +:+ attr "method" "post" +:+ " " +:+ attr "action" "/admin/login" +:+ ">" +:+ nl
  +:+ "  <input " +:+ attr "type" "hidden" +:+ " " +:+ attr "name" "next" +:+ " "
  +:+ attr "value" next +:+ " />" +:+ nl
  +:+ "  <label>Password</label>" +:+ nl
  +:+ "  <input " +:+ attr "type" "password" +:+ " " +:+ attr "name" "password"
  +:+ " autofocus required />" +:+ nl
  +:+ "  <button " +:+ attr "type" "submit" +:+ ">Sign in</button>" +:+ nl
  +:+ "</form>" +:+ nl
  +:+ "</body></html>".

Definition loginPage (h : UIHandler) : RequestHandler := λ ctx,
  let ctx := SetContentType "text/html; charset=utf-8" ctx in
  let next := peekArg "next" (reqQueryArgs (ctxRequest ctx)) in
  let next := if String.eqb next "" then "/" else next in
  SetBodyString (loginForm next) (SetStatusCode StatusOK ctx).

(** [var c fasthttp.Cookie] *)
Definition zeroCookie : Cookie := mkCookie "" "" "" false None 0.

Definition invalidPasswordPage : string :=
  "<html><body><p>Invalid password</p><a href=" +:+ quote +:+ "/admin/login"
  +:+ quote +:+ ">Try again</a></body></html>".

Definition loginSubmit (h : UIHandler) : RequestHandler := λ ctx,
  match config h with
  | None => SendError ctx StatusServiceUnavailable "admin auth not configured"
  | Some cfg =>
      if String.eqb (strings_TrimSpace (AdminSecret cfg)) ""
      then SendError ctx StatusServiceUnavailable "admin auth not configured"
      else
        let password := peekArg "password" (reqPostArgs (ctxRequest ctx)) in
        let next := peekArg "next" (reqPostArgs (ctxRequest ctx)) in
        if String.eqb password ""
        then SendError ctx StatusBadRequest "password is required"
        else if negb (String.eqb password (AdminSecret cfg))
        then
          SetBodyString invalidPasswordPage
            (SetStatusCode StatusUnauthorized
               (SetContentType "text/html; charset=utf-8" ctx))
        else
          let cookieName := AdminCookieName cfg in
          let cookieName := if String.eqb cookieName "" then "bf_admin" else cookieName in
          let c := mkCookie cookieName (AdminSecret cfg) "/" true
                     (cookieExpire zeroCookie) (cookieMaxAge zeroCookie) in
          let ctx := ResponseSetCookie c ctx in
          let next :=
            if String.eqb next "" || strings_Contains next "://" then "/" else next in
          SetStatusCode StatusFound (ResponseHeaderSet "Location" next ctx)
  end.

Definition logout (h : UIHandler) : RequestHandler := λ ctx,
  let cookieName :=
    match config h with
    | Some cfg =>
        if negb (String.eqb (strings_TrimSpace (AdminCookieName cfg)) "")
        then AdminCookieName cfg else "bf_admin"
    | None => "bf_admin"
    end in
  let c := mkCookie cookieName "" "/" false (Some 0%Z) (-1) in
  SetStatusCode StatusFound
    (ResponseHeaderSet "Location" "/admin/login" (ResponseSetCookie c ctx)).





(** ** docker-entrypoint.sh *)

(** The shell as far as the argument parsing of the entry point goes: the
    positional parameters, the variables by name, and the lines written to
    the standard output. *)
Record Shell := mkShell {
  shParams : list string;
  shEnv : gmap string string;
  shOut : list string
}.

(** ["$NAME"]: the value of a variable, empty when it is not set. *)
Definition shVar (name : string) (env : gmap string string) : string :=
  default EmptyString (env !! name).

(** What one round of a loop leaves: the loop goes on, it has ended, or the
    script has exited with a status. *)
Inductive Round : Type :=
| Continue (s : Shell)
| Ended (s : Shell)
| Exited (status : Z) (s : Shell).

(** An option of [parse_args] with its value: [export NAME="$2"; shift 2]
    when [-n "$2"] holds, the error line and [exit 1] when it does not. *)
Definition takeValue (name flag : string) (s : Shell) : Round :=
  let value := default EmptyString (shParams s !! 1) in
  if negb (String.eqb value "")
  then Continue (mkShell (drop 2 (shParams s)) (<[name := value]> (shEnv s)) (shOut s))
  else Exited 1 (mkShell (shParams s) (shEnv s)
                   (shOut s ++ ["Error: " +:+ flag +:+ " requires a value"])).

(** The test [$# -gt 0] of the [while] and one round of its body. *)
Definition parse_args_round (s : Shell) : Round :=
  match shParams s with
  | [] => Ended s
  | p1 :: _ =>
      if String.eqb p1 "--port" || String.eqb p1 "-port"
      then takeValue "APP_PORT" "--port" s
      else if String.eqb p1 "--host" || String.eqb p1 "-host"
      then takeValue "APP_HOST" "--host" s
      else Continue (mkShell (drop 1 (shParams s ++ [p1])) (shEnv s) (shOut s))
  end.

(** [parse_args]: the loop, for at most [fuel] rounds; [None] when the loop is
    still going after them. *)
Fixpoint parse_args (fuel : nat) (s : Shell) : option Round :=
  match fuel with
  | O => None
  | S fuel' =>
      match parse_args_round s with
      | Continue s' => parse_args fuel' s'
      | stopped => Some stopped
      end
  end.

(** [if [ $# -gt 1 ]; then parse_args "$@"; fi]: the function works on its
    own copy of the parameters, and the script has its own back when the
    function returns. *)
Definition entrypoint_args (fuel : nat) (s : Shell) : option Round :=
  if decide (1 < length (shParams s))
  then
    match parse_args fuel s with
    | Some (Ended s') => Some (Ended (mkShell (shParams s) (shEnv s') (shOut s')))
    | other => other
    end
  else Some (Ended s).

(** The words of the last line of the script, [exec /app/main ...]. *)
Definition main_command (env : gmap string string) : list string :=
  [ "/app/main";
    "-app-dir"; shVar "APP_DIR" env;
    "-port"; shVar "APP_PORT" env;
    "-host"; shVar "APP_HOST" env;
    "-log-level"; shVar "LOG_LEVEL" env;
    "-log-style"; shVar "LOG_STYLE" env ].

(** ** The vocabulary of the properties *)

(** On [s] the middleware [m] hands [s'] to its next stage and answers with
    what that stage answers. *)
Definition forwards {C R : Type} (m : (C → R) → C → R) (s s' : C) : Prop :=
  ∀ next, m next s = next s'.

(** On [s] the middleware [m] answers without its next stage: the answer is
    the same whatever the next stage is. *)
Definition shortCircuits {C R : Type} (m : (C → R) → C → R) (s : C) : Prop :=
  ∀ next next', m next s = m next' s.

(** The middlewares of the list forward one after the other, from [s] to [s']. *)
Inductive forwardsAll {C R : Type} : list ((C → R) → C → R) → C → C → Prop :=
| forwardsAll_nil s : forwardsAll [] s s
| forwardsAll_cons m ms s s' s'' :
    forwards m s s' → forwardsAll ms s' s'' → forwardsAll (m :: ms) s s''.

(** A string made of white-space runes only. *)
Inductive whitespaceOnly : string → Prop :=
| whitespaceOnly_nil : whitespaceOnly EmptyString
| whitespaceOnly_rune sp s :
    sp ∈ unicodeSpaces → whitespaceOnly s → whitespaceOnly (sp +:+ s).

(** The first bytes of the white-space runes. *)
Definition isSpaceStart (c : ascii) : bool :=
  let n := N_of_ascii c in
  (n =? 9)%N || (n =? 10)%N || (n =? 11)%N || (n =? 12)%N || (n =? 13)%N || (n =? 32)%N
  || (n =? 194)%N || (n =? 225)%N || (n =? 226)%N || (n =? 227)%N.


(** The name of the bundle entry [serveDashboard] looks up first. *)
Definition resolvedPath (requestPath : string) : string :=
  let cleanPath := path_Clean requestPath in
  let cleanPath :=
    if strings_HasSuffix cleanPath ".txt"
    then
      let basePath := strings_TrimSuffix cleanPath ".txt" in
      (if String.eqb basePath "/" || String.eqb basePath "" then "/index" else basePath)
      +:+ "/index.txt"
    else cleanPath in
  if String.eqb cleanPath "/" then "ui/index.html" else "ui" +:+ cleanPath.

(** An asset: the last element of the path has a dot. *)
Definition isAsset (cleanPath : string) : bool :=
  strings_Contains (filepath_Base cleanPath) ".".

(** The token of an [Authorization] header as the spec words it: the header
    is trimmed, the prefix [bearer ] is looked for without regard to case,
    and what follows the prefix is trimmed again. *)
Definition bearerToken (auth : string) : option string :=
  let trimmed := strings_TrimSpace auth in
  if strings_HasPrefix (strings_ToLower trimmed) "bearer "
  then Some (strings_TrimSpace (string_drop (String.length "bearer ") trimmed))
  else None.


(** The plugin loop starts from the request's headers and decoded body. *)
Definition initialWorking (ctx : RequestCtx) (requestBody : gomap any) : Working :=
  mkWorking ctx (Some (fst (parseHeaders (reqHeader (ctxRequest ctx))))) requestBody.

(** Two contexts with the same request and response (the logs may differ). *)
Definition sameExchange (c c' : RequestCtx) : Prop :=
  ctxRequest c = ctxRequest c' ∧ ctxResponse c = ctxResponse c'.

(** Two working states with the same maps and the same exchange. *)
Definition sameWorking (w w' : Working) : Prop :=
  wHeaders w = wHeaders w' ∧ wBody w = wBody w' ∧ sameExchange (wCtx w) (wCtx w').

(** The headers [CorsMiddleware] sets for an origin that is allowed. *)
Definition corsHeaders (origin : string) : list (string * string) :=
  [ ("Access-Control-Allow-Origin", origin);
    ("Access-Control-Allow-Methods", "GET, POST, PUT, DELETE, OPTIONS");
    ("Access-Control-Allow-Headers", "Content-Type, Authorization, X-Requested-With");
    ("Access-Control-Allow-Credentials", "true");
    ("Access-Control-Max-Age", "86400") ].

(** Two contexts that differ in the headers of the response at most. *)
Definition sameButResponseHeaders (c c' : RequestCtx) : Prop :=
  ctxRequest c = ctxRequest c'
  ∧ ctxWarnings c = ctxWarnings c'
  ∧ respStatusCode (ctxResponse c) = respStatusCode (ctxResponse c')
  ∧ respContentType (ctxResponse c) = respContentType (ctxResponse c')
  ∧ respCookies (ctxResponse c) = respCookies (ctxResponse c')
  ∧ respBody (ctxResponse c) = respBody (ctxResponse c').

(** The admin gate lets the request through: no usable secret, a public
    path, the bearer token or the cookie. *)
Definition gateOpens (config : Config) (ctx : RequestCtx) : bool :=
  String.eqb (strings_TrimSpace (AdminSecret config)) ""
  || isPublicPath (reqMethod (ctxRequest ctx)) (reqPath (ctxRequest ctx))
  || bearerMatches (RequestHeaderPeek "Authorization" ctx) (AdminSecret config)
  || cookieMatches (peekArg (AdminCookieName config) (reqCookies (ctxRequest ctx)))
       (AdminSecret config).

(** The request is turned down with the structured 401 rather than with the
    redirect to the login page. *)
Definition wantsStructured (ctx : RequestCtx) : bool :=
  strings_Contains (strings_ToLower (RequestHeaderPeek "Accept" ctx)) "application/json"
  || strings_EqualFold (RequestHeaderPeek "X-Requested-With" ctx) "XMLHttpRequest"
  || strings_HasPrefix (reqPath (ctxRequest ctx)) "/api/"
  || strings_HasPrefix (reqPath (ctxRequest ctx)) "/v1/".

(** The answer of the admin gate to a request it turns down. *)
Definition refusal (ctx : RequestCtx) : RequestCtx :=
  if wantsStructured ctx
  then SendError ctx StatusUnauthorized "admin authentication required"
  else SetStatusCode StatusFound
         (ResponseHeaderSet "Location"
            ("/admin/login?next=" +:+ url_QueryEscape (reqPath (ctxRequest ctx))) ctx).

(** The request presents the cookie: the first of its cookies with that name
    has that value. *)
Definition presents (c : Cookie) (ctx : RequestCtx) : Prop :=
  peekArg (cookieKey c) (reqCookies (ctxRequest ctx)) = cookieValue c.

(** The login POST carries the secret of a configuration that has one. *)
Definition rightPassword (h : UIHandler) (cfg : Config) (ctx : RequestCtx) : Prop :=
  config h = Some cfg
  ∧ strings_TrimSpace (AdminSecret cfg) ≠ EmptyString
  ∧ peekArg "password" (reqPostArgs (ctxRequest ctx)) = AdminSecret cfg.

(** The session cookie of a successful login. *)
Definition sessionCookie (cfg : Config) : Cookie :=
  mkCookie (if String.eqb (AdminCookieName cfg) "" then "bf_admin" else AdminCookieName cfg)
    (AdminSecret cfg) "/" true None 0.


(** An element of a bundle name that stays below its directory: not empty,
    neither [.] nor [..], and without a slash. *)
Definition plainElement (e : string) : Prop :=
  e ≠ EmptyString ∧ e ≠ "." ∧ e ≠ ".." ∧ strings_Contains e "/" = false.



(** The options [parse_args] knows. *)
Definition isOption (p : string) : bool :=
  String.eqb p "--port" || String.eqb p "-port" || String.eqb p "--host" || String.eqb p "-host".

(** The variable an option exports. *)
Definition optionVariable (p : string) : string :=
  if String.eqb p "--port" || String.eqb p "-port" then "APP_PORT" else "APP_HOST".

(** A command line made of options with their values, and what it exports. *)
Definition optionWords (opts : list (string * string)) : list string :=
  flat_map (λ o, [fst o; snd o]) opts.

Definition exported (opts : list (string * string)) (env : gmap string string)
    : gmap string string :=
  foldl (λ e o, <[optionVariable (fst o) := snd o]> e) env opts.

(** ** Byte strings and arguments *)

Lemma string_app_cons (x : ascii) (a b : string) :
  String x a +:+ b = String x (a +:+ b).
Proof. reflexivity. Qed.

Lemma string_app_nil_l (b : string) : EmptyString +:+ b = b.
Proof. reflexivity. Qed.

Lemma string_app_assoc (a b c : string) : (a +:+ b) +:+ c = a +:+ (b +:+ c).
Proof.
  induction a as [|x a IH]; [done|].
  by rewrite !string_app_cons, IH.
Qed.

Lemma string_length_app (a b : string) :
  String.length (a +:+ b) = String.length a + String.length b.
Proof.
  induction a as [|x a IH]; [done|].
  rewrite string_app_cons. simpl. by rewrite IH.
Qed.

Lemma peekArg_setArg_eq key value h : peekArg key (setArg key value h) = value.
Proof.
  unfold peekArg, findArg. induction h as [|[k v] h IH]; simpl.
  - by rewrite String.eqb_refl.
  - destruct (String.eqb k key) eqn:E; simpl; rewrite E; [done | exact IH].
Qed.

Lemma findArg_setArg_eq key value h : findArg key (setArg key value h) = Some value.
Proof.
  unfold findArg. induction h as [|[k v] h IH]; simpl.
  - by rewrite String.eqb_refl.
  - destruct (String.eqb k key) eqn:E; simpl; rewrite E; [done | exact IH].
Qed.

Lemma findArg_setArg_ne key key' value h :
  key ≠ key' → findArg key' (setArg key value h) = findArg key' h.
Proof.
  intros Hne. unfold findArg. induction h as [|[k v] h IH]; simpl.
  - destruct (String.eqb key key') eqn:E; [|done].
    apply String.eqb_eq in E. done.
  - destruct (String.eqb k key) eqn:E; simpl.
    + apply String.eqb_eq in E. subst k.
      destruct (String.eqb key key') eqn:E'; [|done].
      apply String.eqb_eq in E'. done.
    + destruct (String.eqb k key'); [done | exact IH].
Qed.


Lemma findArg_delAllArgs_ne key key' h :
  key ≠ key' → findArg key' (delAllArgs key h) = findArg key' h.
Proof.
  intros Hne. unfold findArg, delAllArgs. induction h as [|[k v] h IH]; [done|].
  rewrite filter_cons. simpl. destruct (decide (k ≠ key)) as [Hk|Hk]; simpl.
  - destruct (String.eqb k key'); [done | exact IH].
  - destruct (String.eqb k key') eqn:E; [|exact IH].
    apply String.eqb_eq in E. subst k. destruct Hk. congruence.
Qed.

Lemma setCookie_In c cs : c ∈ setCookie c cs.
Proof.
  induction cs as [|c' cs IH]; simpl.
  - apply list_elem_of_here.
  - destruct (String.eqb (cookieKey c') (cookieKey c)).
    + apply list_elem_of_here.
    + by apply list_elem_of_further.
Qed.

Lemma string_app_nil_r (a : string) : a +:+ EmptyString = a.
Proof. induction a as [|x a IH]; [reflexivity|]. by rewrite string_app_cons, IH. Qed.

Lemma string_drop_length n s : String.length (string_drop n s) = String.length s - n.
Proof.
  revert s. induction n as [|n IH]; intros s; simpl.
  - lia.
  - destruct s as [|c s]; simpl; [reflexivity | apply IH].
Qed.

Lemma string_drop_app n a b :
  n ≤ String.length a → string_drop n (a +:+ b) = string_drop n a +:+ b.
Proof.
  revert a. induction n as [|n IH]; intros a Hn; simpl.
  - reflexivity.
  - destruct a as [|c a]; simpl in Hn; [lia|].
    rewrite string_app_cons. apply IH. lia.
Qed.

Lemma string_map_length f s : String.length (string_map f s) = String.length s.
Proof. induction s as [|c s IH]; simpl; [reflexivity | by rewrite IH]. Qed.

Lemma string_prefix_length p s :
  string_prefix p s = true → String.length p ≤ String.length s.
Proof.
  revert s. induction p as [|a p IH]; intros s Hp; simpl.
  - lia.
  - destruct s as [|b s]; [discriminate|]. simpl in Hp.
    apply andb_prop in Hp as [_ Hp]. apply IH in Hp. simpl. lia.
Qed.

Lemma string_prefix_app p s :
  string_prefix p s = true → s = p +:+ string_drop (String.length p) s.
Proof.
  revert s. induction p as [|a p IH]; intros s Hp; simpl.
  - reflexivity.
  - destruct s as [|b s]; [discriminate|]. simpl in Hp.
    apply andb_prop in Hp as [Hab Hp]. apply Ascii.eqb_eq in Hab. subst b.
    rewrite string_app_cons. f_equal. by apply IH.
Qed.

(** A prefix of [m ++ t] is a prefix of [m], or goes on into [t]. *)
Lemma string_prefix_app_inv p m t :
  string_prefix p (m +:+ t) = true →
  string_prefix p m = true
  ∨ (String.length m < String.length p
     ∧ string_prefix (string_drop (String.length m) p) t = true).
Proof.
  revert m. induction p as [|a p IH]; intros m Hp.
  - by left.
  - destruct m as [|b m].
    + right. rewrite string_app_nil_l in Hp. simpl. split; [lia | exact Hp].
    + rewrite string_app_cons in Hp. simpl in Hp.
      apply andb_prop in Hp as [Hab Hp]. destruct (IH m Hp) as [Hm | [Hlen Hrest]].
      * left. simpl. by rewrite Hab, Hm.
      * right. simpl. split; [lia | exact Hrest].
Qed.

Lemma string_rev_app_length s1 s2 :
  String.length (String.rev_app s1 s2) = String.length s1 + String.length s2.
Proof.
  revert s2. induction s1 as [|c s1 IH]; intros s2; simpl.
  - reflexivity.
  - rewrite IH. simpl. lia.
Qed.

Lemma string_rev_length s : String.length (String.rev s) = String.length s.
Proof. unfold String.rev. rewrite string_rev_app_length. simpl. lia. Qed.

Lemma string_rev_app_spec s1 s2 : String.rev_app s1 s2 = String.rev s1 +:+ s2.
Proof.
  unfold String.rev. revert s2. induction s1 as [|c s1 IH]; intros s2; simpl.
  - reflexivity.
  - rewrite (IH (String c s2)), (IH (String c EmptyString)), string_app_assoc. reflexivity.
Qed.

Lemma string_rev_cons c s : String.rev (String c s) = String.rev s +:+ String c EmptyString.
Proof. unfold String.rev at 1. simpl. apply string_rev_app_spec. Qed.

Lemma string_rev_app a b : String.rev (a +:+ b) = String.rev b +:+ String.rev a.
Proof.
  induction a as [|c a IH].
  - rewrite string_app_nil_l. change (String.rev EmptyString) with EmptyString.
    by rewrite string_app_nil_r.
  - rewrite string_app_cons, !string_rev_cons, IH, string_app_assoc. reflexivity.
Qed.

Lemma string_rev_involutive s : String.rev (String.rev s) = s.
Proof.
  induction s as [|c s IH]; [reflexivity|].
  rewrite string_rev_cons, string_rev_app, IH. reflexivity.
Qed.

(** ** White space *)

Lemma stripSpace_rune sp s : sp ∈ unicodeSpaces → stripSpace (sp +:+ s) = Some s.
Proof.
  unfold unicodeSpaces. intros Hin. simpl in Hin.
  repeat (apply elem_of_cons in Hin as [->|Hin]; [reflexivity|]).
  by apply elem_of_nil in Hin.
Qed.

Lemma rune_length sp : sp ∈ unicodeSpaces → 0 < String.length sp.
Proof.
  unfold unicodeSpaces. intros Hin. simpl in Hin.
  repeat (apply elem_of_cons in Hin as [->|Hin]; [simpl; lia|]).
  by apply elem_of_nil in Hin.
Qed.

Lemma trimLeftSpace_whitespaceOnly s fuel :
  whitespaceOnly s → String.length s ≤ fuel → trimLeftSpace fuel s = EmptyString.
Proof.
  intros Hws. revert fuel. induction Hws as [|sp s Hsp Hws IH]; intros fuel Hfuel.
  - by destruct fuel.
  - rewrite string_length_app in Hfuel. pose proof (rune_length sp Hsp).
    destruct fuel as [|fuel]; [lia|]. simpl. rewrite stripSpace_rune by done.
    apply IH. lia.
Qed.

Lemma TrimSpace_whitespaceOnly s : whitespaceOnly s → strings_TrimSpace s = EmptyString.
Proof.
  intros Hws. unfold strings_TrimSpace.
  rewrite (trimLeftSpace_whitespaceOnly s (String.length s) Hws (le_n _)).
  reflexivity.
Qed.

Lemma trimLeftSpace_length fuel s : String.length (trimLeftSpace fuel s) ≤ String.length s.
Proof.
  revert s. induction fuel as [|fuel IH]; intros s; simpl; [lia|].
  destruct (stripSpace s) as [s'|] eqn:Hstrip; [|lia].
  unfold stripSpace in Hstrip. destruct (find _ unicodeSpaces) as [sp|]; [|discriminate].
  simpl in Hstrip. injection Hstrip as <-.
  etransitivity; [apply IH|]. rewrite string_drop_length. lia.
Qed.

Lemma trimRightSpaceRev_length fuel r :
  String.length (trimRightSpaceRev fuel r) ≤ String.length r.
Proof.
  revert r. induction fuel as [|fuel IH]; intros r; simpl; [lia|].
  destruct (stripSpaceRev r) as [r'|] eqn:Hstrip; [|lia].
  unfold stripSpaceRev in Hstrip. destruct (find _ unicodeSpaces) as [sp|]; [|discriminate].
  simpl in Hstrip. injection Hstrip as <-.
  etransitivity; [apply IH|]. rewrite string_drop_length. lia.
Qed.

Lemma TrimSpace_length s : String.length (strings_TrimSpace s) ≤ String.length s.
Proof.
  unfold strings_TrimSpace. rewrite string_rev_length.
  etransitivity; [apply trimRightSpaceRev_length|].
  rewrite string_rev_length. apply trimLeftSpace_length.
Qed.

Lemma find_unicodeSpaces_Some (f : string → bool) sp :
  find f unicodeSpaces = Some sp → sp ∈ unicodeSpaces ∧ f sp = true.
Proof.
  intros Hfind. apply find_some in Hfind as [Hin Hf]. split; [|exact Hf].
  by apply list_elem_of_In.
Qed.

Lemma stripSpace_Some s s' :
  stripSpace s = Some s' → ∃ sp, sp ∈ unicodeSpaces ∧ s = sp +:+ s'.
Proof.
  unfold stripSpace. destruct (find _ unicodeSpaces) as [sp|] eqn:Hfind; [|discriminate].
  simpl. intros [= <-]. apply find_unicodeSpaces_Some in Hfind as [Hin Hprefix].
  exists sp. split; [exact Hin | by apply string_prefix_app].
Qed.

Lemma stripSpaceRev_Some r r' :
  stripSpaceRev r = Some r' → ∃ sp, sp ∈ unicodeSpaces ∧ r = String.rev sp +:+ r'.
Proof.
  unfold stripSpaceRev. destruct (find _ unicodeSpaces) as [sp|] eqn:Hfind; [|discriminate].
  simpl. intros [= <-]. apply find_unicodeSpaces_Some in Hfind as [Hin Hprefix].
  exists sp. split; [exact Hin|].
  apply string_prefix_app in Hprefix. by rewrite string_rev_length in Hprefix.
Qed.

Lemma stripSpaceRev_rune sp r :
  sp ∈ unicodeSpaces → stripSpaceRev (String.rev sp +:+ r) = Some r.
Proof.
  unfold unicodeSpaces. intros Hin. simpl in Hin.
  repeat (apply elem_of_cons in Hin as [->|Hin]; [reflexivity|]).
  by apply elem_of_nil in Hin.
Qed.

Lemma whitespaceOnly_app a b : whitespaceOnly a → whitespaceOnly b → whitespaceOnly (a +:+ b).
Proof.
  induction 1 as [|sp a Hsp _ IH]; intros Hb.
  - exact Hb.
  - rewrite string_app_assoc. apply whitespaceOnly_rune; [exact Hsp | by apply IH].
Qed.

Lemma whitespaceOnly_single sp : sp ∈ unicodeSpaces → whitespaceOnly sp.
Proof.
  intros Hsp. rewrite <- (string_app_nil_r sp).
  apply whitespaceOnly_rune; [exact Hsp | constructor].
Qed.

(** Trimming on the left splits a string into white space and a rest that
    does not start with white space. *)
Lemma trimLeftSpace_split fuel s :
  String.length s ≤ fuel →
  ∃ l, whitespaceOnly l ∧ s = l +:+ trimLeftSpace fuel s
       ∧ stripSpace (trimLeftSpace fuel s) = None.
Proof.
  revert s. induction fuel as [|fuel IH]; intros s Hfuel.
  - destruct s; [|simpl in Hfuel; lia]. exists EmptyString.
    split; [constructor | split; reflexivity].
  - simpl. destruct (stripSpace s) as [s'|] eqn:Hstrip.
    + destruct (stripSpace_Some _ _ Hstrip) as (sp & Hsp & ->).
      pose proof (rune_length sp Hsp). rewrite string_length_app in Hfuel.
      destruct (IH s') as (l & Hl & Hs' & Hnone); [lia|].
      exists (sp +:+ l). split; [by apply whitespaceOnly_rune|].
      split; [|exact Hnone]. rewrite string_app_assoc. by rewrite <- Hs'.
    + exists EmptyString. split; [constructor | split; [reflexivity | exact Hstrip]].
Qed.

(** The same on the right, on the reversed bytes. *)
Lemma trimRightSpaceRev_split fuel r :
  String.length r ≤ fuel →
  ∃ t, whitespaceOnly t ∧ r = String.rev t +:+ trimRightSpaceRev fuel r
       ∧ stripSpaceRev (trimRightSpaceRev fuel r) = None.
Proof.
  revert r. induction fuel as [|fuel IH]; intros r Hfuel.
  - destruct r; [|simpl in Hfuel; lia]. exists EmptyString.
    split; [constructor | split; reflexivity].
  - simpl. destruct (stripSpaceRev r) as [r'|] eqn:Hstrip.
    + destruct (stripSpaceRev_Some _ _ Hstrip) as (sp & Hsp & ->).
      pose proof (rune_length sp Hsp).
      rewrite string_length_app, string_rev_length in Hfuel.
      destruct (IH r') as (t & Ht & Hr' & Hnone); [lia|].
      exists (t +:+ sp). split; [apply whitespaceOnly_app; [exact Ht|by apply whitespaceOnly_single]|].
      split; [|exact Hnone]. rewrite string_rev_app, string_app_assoc. by rewrite <- Hr'.
    + exists EmptyString. split; [constructor | split; [reflexivity | exact Hstrip]].
Qed.

(** White space in front of a string that does not start with white space is
    what trimming on the left removes, whatever the fuel beyond the length. *)
Lemma trimLeftSpace_whitespace_app l m fuel :
  whitespaceOnly l → stripSpace m = None → String.length (l +:+ m) ≤ fuel →
  trimLeftSpace fuel (l +:+ m) = m.
Proof.
  intros Hl Hm. revert fuel. induction Hl as [|sp l Hsp Hl IH]; intros fuel Hfuel.
  - rewrite string_app_nil_l. destruct fuel; [reflexivity|]. simpl. by rewrite Hm.
  - rewrite string_app_assoc in Hfuel |- *. rewrite string_length_app in Hfuel.
    pose proof (rune_length sp Hsp). destruct fuel as [|fuel]; [lia|].
    simpl. rewrite stripSpace_rune by exact Hsp. apply IH. lia.
Qed.

(** More fuel than the length changes nothing. *)
Lemma trimRightSpaceRev_enough fuel fuel' r :
  String.length r ≤ fuel → String.length r ≤ fuel' →
  trimRightSpaceRev fuel r = trimRightSpaceRev fuel' r.
Proof.
  revert fuel' r. induction fuel as [|fuel IH]; intros fuel' r Hfuel Hfuel'.
  - destruct r; [|simpl in Hfuel; lia]. destruct fuel'; reflexivity.
  - destruct fuel' as [|fuel'].
    + destruct r; [reflexivity | simpl in Hfuel'; lia].
    + simpl. destruct (stripSpaceRev r) as [r'|] eqn:Hstrip; [|reflexivity].
      destruct (stripSpaceRev_Some _ _ Hstrip) as (sp & Hsp & ->).
      pose proof (rune_length sp Hsp).
      rewrite string_length_app, string_rev_length in Hfuel, Hfuel'.
      apply IH; lia.
Qed.

Lemma trimRightSpaceRev_whitespace_app t r fuel :
  whitespaceOnly t → String.length (String.rev t +:+ r) ≤ fuel →
  trimRightSpaceRev fuel (String.rev t +:+ r) = trimRightSpaceRev (String.length r) r.
Proof.
  intros Ht. revert r fuel. induction Ht as [|sp t Hsp Ht IH]; intros r fuel Hfuel.
  - change (String.rev EmptyString) with EmptyString in *.
    rewrite string_app_nil_l in *. by apply trimRightSpaceRev_enough.
  - rewrite string_rev_app, string_app_assoc in Hfuel |- *.
    rewrite IH by exact Hfuel.
    pose proof (rune_length sp Hsp).
    rewrite string_length_app, string_rev_length.
    destruct (String.length sp + String.length r) as [|n] eqn:Hn; [lia|].
    simpl. rewrite stripSpaceRev_rune by exact Hsp.
    apply trimRightSpaceRev_enough; lia.
Qed.

Lemma whitespaceOnly_start t :
  whitespaceOnly t →
  t = EmptyString ∨ ∃ c t', t = String c t' ∧ isSpaceStart c = true.
Proof.
  destruct 1 as [|sp t Hsp _]; [by left|]. right.
  unfold unicodeSpaces in Hsp. simpl in Hsp.
  repeat (apply elem_of_cons in Hsp as [->|Hsp];
          [eexists _, _; split; [reflexivity | reflexivity]|]).
  by apply elem_of_nil in Hsp.
Qed.

(** No byte that follows the first byte of a rune is the first byte of one:
    the end of a rune is not the start of white space. *)
Lemma rune_tail_not_whitespace sp k t :
  sp ∈ unicodeSpaces → 0 < k → k < String.length sp → whitespaceOnly t →
  string_prefix (string_drop k sp) t = false.
Proof.
  intros Hsp Hk Hlen Ht. apply whitespaceOnly_start in Ht.
  unfold unicodeSpaces in Hsp. simpl in Hsp.
  repeat (apply elem_of_cons in Hsp as [->|Hsp]; [
    destruct k as [|[|[|k]]]; simpl in Hlen; try lia;
    (destruct Ht as [->|(c & t' & -> & Hc)]; [reflexivity|]);
    cbn [string_drop string_prefix]; apply andb_false_iff; left;
    apply Ascii.eqb_neq; intros <-; vm_compute in Hc; discriminate Hc
  |]).
  by apply elem_of_nil in Hsp.
Qed.

(** A string that does not start with white space still does not when white
    space is put after it, unless it is empty. *)
Lemma stripSpace_app_None m t :
  stripSpace m = None → m ≠ EmptyString → whitespaceOnly t →
  stripSpace (m +:+ t) = None.
Proof.
  intros Hnone Hm Ht. unfold stripSpace in *.
  destruct (find (λ sp, string_prefix sp (m +:+ t)) unicodeSpaces) as [sp|] eqn:Hfind;
    [|reflexivity].
  exfalso. apply find_unicodeSpaces_Some in Hfind as [Hsp Hprefix].
  destruct (find (λ sp, string_prefix sp m) unicodeSpaces) as [?|] eqn:Hfm; [discriminate|].
  apply string_prefix_app_inv in Hprefix as [Hpm | [Hlen Hrest]].
  - assert (Hno : string_prefix sp m = false).
    { apply (find_none _ _ Hfm sp). by apply list_elem_of_In. }
    congruence.
  - rewrite rune_tail_not_whitespace in Hrest; [discriminate | exact Hsp | | exact Hlen | exact Ht].
    destruct m; [done | simpl; lia].
Qed.

(** White space at the end of a string does not show in what is left of it
    after trimming. *)
Lemma TrimSpace_app_whitespace x t :
  whitespaceOnly t → strings_TrimSpace (x +:+ t) = strings_TrimSpace x.
Proof.
  intros Ht.
  destruct (trimLeftSpace_split (String.length x) x (le_n _)) as (l & Hl & Hx & Hnone).
  set (m := trimLeftSpace (String.length x) x) in *.
  destruct (decide (m = EmptyString)) as [Hm|Hm].
  - (* [x] is white space *)
    rewrite Hm, string_app_nil_r in Hx. subst l.
    rewrite (TrimSpace_whitespaceOnly x Hl).
    apply TrimSpace_whitespaceOnly. by apply whitespaceOnly_app.
  - unfold strings_TrimSpace. fold m.
    assert (Hleft : trimLeftSpace (String.length (x +:+ t)) (x +:+ t) = m +:+ t).
    { rewrite Hx at 2. rewrite string_app_assoc.
      apply trimLeftSpace_whitespace_app; [exact Hl | by apply stripSpace_app_None |].
      rewrite <- string_app_assoc, <- Hx. lia. }
    rewrite Hleft, string_rev_app.
    rewrite trimRightSpaceRev_whitespace_app; [|exact Ht|].
    + by rewrite string_rev_length.
    + rewrite <- string_rev_app, string_rev_length. lia.
Qed.

(** The trimmed string, and the white space that was after it. *)
Lemma TrimSpace_split_right s :
  stripSpace s = None →
  ∃ t, whitespaceOnly t ∧ s = strings_TrimSpace s +:+ t.
Proof.
  intros Hnone. unfold strings_TrimSpace.
  assert (Hleft : trimLeftSpace (String.length s) s = s).
  { destruct (String.length s); [reflexivity|]. simpl. by rewrite Hnone. }
  rewrite Hleft.
  destruct (trimRightSpaceRev_split (String.length s) (String.rev s)) as (t & Ht & Hr & _).
  { by rewrite string_rev_length. }
  exists t. split; [exact Ht|].
  rewrite <- (string_rev_involutive s) at 1. rewrite Hr at 1.
  by rewrite string_rev_app, string_rev_involutive.
Qed.

(** A string is trimmed to nothing exactly when it is white space. *)
Lemma TrimSpace_blank_iff s : strings_TrimSpace s = EmptyString ↔ whitespaceOnly s.
Proof.
  split; [|apply TrimSpace_whitespaceOnly].
  intros Hblank.
  destruct (trimLeftSpace_split (String.length s) s (le_n _)) as (l & Hl & Hs & Hnone).
  unfold strings_TrimSpace in Hblank.
  set (m := trimLeftSpace (String.length s) s) in *.
  destruct (trimRightSpaceRev_split (String.length m) (String.rev m)) as (t & Ht & Hr & _).
  { by rewrite string_rev_length. }
  assert (Hrest : trimRightSpaceRev (String.length m) (String.rev m) = EmptyString).
  { rewrite <- (string_rev_involutive (trimRightSpaceRev _ _)), Hblank. reflexivity. }
  rewrite Hrest, string_app_nil_r in Hr.
  assert (Hm : m = t).
  { rewrite <- (string_rev_involutive m), Hr. apply string_rev_involutive. }
  destruct Ht as [|sp t Hsp Ht].
  - rewrite Hs, Hm, string_app_nil_r. exact Hl.
  - rewrite Hm, stripSpace_rune in Hnone by exact Hsp. discriminate.
Qed.

(** ** [strings.TrimSpace] trims once and for all *)

Lemma TrimSpace_decompose s :
  ∃ l t, whitespaceOnly l ∧ whitespaceOnly t
         ∧ s = l +:+ strings_TrimSpace s +:+ t
         ∧ stripSpace (strings_TrimSpace s +:+ t) = None
         ∧ stripSpaceRev (String.rev (strings_TrimSpace s)) = None.
Proof.
  destruct (trimLeftSpace_split (String.length s) s (le_n _)) as (l & Hl & Hs & Hnone).
  set (m := trimLeftSpace (String.length s) s) in *.
  destruct (trimRightSpaceRev_split (String.length m) (String.rev m))
    as (t & Ht & Hm & Hnone').
  { by rewrite string_rev_length. }
  assert (Htrim : strings_TrimSpace s
                  = String.rev (trimRightSpaceRev (String.length m) (String.rev m))).
  { reflexivity. }
  assert (Hm' : m = strings_TrimSpace s +:+ t).
  { rewrite Htrim. rewrite <- (string_rev_involutive m) at 1.
    rewrite Hm at 1. by rewrite string_rev_app, string_rev_involutive. }
  exists l, t. split; [exact Hl|]. split; [exact Ht|]. split; [|split].
  - by rewrite <- Hm'.
  - by rewrite <- Hm'.
  - rewrite Htrim, string_rev_involutive. exact Hnone'.
Qed.

Lemma stripSpace_app_Some a b a' : stripSpace a = Some a' → stripSpace (a +:+ b) = Some (a' +:+ b).
Proof.
  intros H. apply stripSpace_Some in H as (sp & Hsp & ->).
  rewrite string_app_assoc. by apply stripSpace_rune.
Qed.

Lemma TrimSpace_no_leading s : stripSpace (strings_TrimSpace s) = None.
Proof.
  destruct (TrimSpace_decompose s) as (l & t & _ & _ & _ & Hnone & _).
  destruct (stripSpace (strings_TrimSpace s)) as [x|] eqn:E; [|reflexivity].
  rewrite (stripSpace_app_Some _ t _ E) in Hnone. discriminate.
Qed.

Lemma TrimSpace_no_trailing s : stripSpaceRev (String.rev (strings_TrimSpace s)) = None.
Proof. by destruct (TrimSpace_decompose s) as (l & t & _ & _ & _ & _ & Hnone). Qed.

(** A string with no white space at either end is its own trimming. *)
Lemma TrimSpace_fixed s :
  stripSpace s = None → stripSpaceRev (String.rev s) = None → strings_TrimSpace s = s.
Proof.
  intros Hl Hr. unfold strings_TrimSpace.
  assert (Hleft : trimLeftSpace (String.length s) s = s).
  { destruct (String.length s); simpl; [reflexivity | by rewrite Hl]. }
  rewrite Hleft.
  assert (Hright : trimRightSpaceRev (String.length s) (String.rev s) = String.rev s).
  { destruct (String.length s); simpl; [reflexivity | by rewrite Hr]. }
  rewrite Hright. apply string_rev_involutive.
Qed.

Lemma TrimSpace_idempotent s :
  strings_TrimSpace (strings_TrimSpace s) = strings_TrimSpace s.
Proof. apply TrimSpace_fixed; [apply TrimSpace_no_leading | apply TrimSpace_no_trailing]. Qed.

(** ** The admin gate *)

Lemma bearer_slice_range_aux auth :
  strings_HasPrefix (strings_ToLower (strings_TrimSpace auth)) "bearer " = true →
  7 ≤ String.length auth.
Proof.
  intros Hprefix. unfold strings_HasPrefix, strings_ToLower in Hprefix.
  apply string_prefix_length in Hprefix. rewrite string_map_length in Hprefix.
  pose proof (TrimSpace_length auth). simpl in *. lia.
Qed.

(** On a header that does not start with white space, the token the code cuts
    out is the token the spec describes. *)
Lemma bearer_token_agrees auth :
  stripSpace auth = None →
  strings_HasPrefix (strings_ToLower (strings_TrimSpace auth)) "bearer " = true →
  strings_TrimSpace (string_drop (String.length "Bearer ") auth)
  = strings_TrimSpace (string_drop (String.length "bearer ") (strings_TrimSpace auth)).
Proof.
  intros Hnone Hprefix.
  assert (Hlen : 7 ≤ String.length (strings_TrimSpace auth)).
  { unfold strings_HasPrefix, strings_ToLower in Hprefix.
    apply string_prefix_length in Hprefix. by rewrite string_map_length in Hprefix. }
  destruct (TrimSpace_split_right auth Hnone) as (t & Ht & Hsplit).
  rewrite Hsplit at 1. change (String.length "Bearer ") with 7. change (String.length "bearer ") with 7.
  rewrite string_drop_app by exact Hlen.
  by apply TrimSpace_app_whitespace.
Qed.

Lemma isPublicPath_bool method path :
  isPublicPath method path
  = (String.eqb path "/metrics" && String.eqb method "GET")
    || (strings_HasPrefix path "/v1/" && String.eqb method "POST")
    || ((strings_HasPrefix path "/openai/" || strings_HasPrefix path "/openai/v1/")
        && String.eqb method "POST")
    || ((String.eqb path "/openai/models" || String.eqb path "/openai/v1/models")
        && String.eqb method "GET")
    || strings_HasPrefix path "/admin/login"
    || (String.eqb path "/api/version" && String.eqb method "GET").
Proof.
  unfold isPublicPath, MethodGet, MethodPost.
  destruct (String.eqb path "/metrics"), (String.eqb method "GET"),
    (strings_HasPrefix path "/v1/"), (String.eqb method "POST"),
    (strings_HasPrefix path "/openai/"), (strings_HasPrefix path "/openai/v1/"),
    (String.eqb path "/openai/models"), (String.eqb path "/openai/v1/models"),
    (strings_HasPrefix path "/admin/login"), (String.eqb path "/api/version");
    reflexivity.
Qed.

(** C8.  With an empty [AdminSecret] the admin gate hands every request to
    the next stage as it came: no credential is looked at, and neither a 401
    nor a redirect is answered. *)
Theorem AdminAuthMiddleware_empty_secret (config : Config) :
  AdminSecret config = EmptyString →
  ∀ ctx, forwards (AdminAuthMiddleware config) ctx ctx.
Proof.
  intros Hsecret ctx next. unfold AdminAuthMiddleware.
  by rewrite Hsecret.
Qed.

Lemma AdminAuthMiddleware_empty_secret_witness :
  forwards (AdminAuthMiddleware (mkConfig "" "bf_admin" []))
    (mkCtx (mkRequest "GET" "/settings" "/settings" [] [] [] [] "") emptyResponse [])
    (mkCtx (mkRequest "GET" "/settings" "/settings" [] [] [] [] "") emptyResponse []).
Proof. apply (AdminAuthMiddleware_empty_secret (mkConfig "" "bf_admin" [])). reflexivity. Defined.

(** C9.  A secret made of white space only counts as no secret at all: the
    admin gate hands every request to the next stage, and the login form is
    answered with 503. *)
Theorem blank_secret_is_unconfigured (config : Config) :
  whitespaceOnly (AdminSecret config) →
  (∀ ctx, forwards (AdminAuthMiddleware config) ctx ctx)
  ∧ (∀ content ctx,
       loginSubmit (mkUIHandler content (Some config)) ctx
       = SendError ctx StatusServiceUnavailable "admin auth not configured").
Proof.
  intros Hws. apply TrimSpace_whitespaceOnly in Hws. split.
  - intros ctx next. unfold AdminAuthMiddleware. by rewrite Hws.
  - intros content ctx. unfold loginSubmit. simpl. by rewrite Hws.
Qed.

Lemma three_blanks : whitespaceOnly (" " +:+ byte_string [9%N] +:+ " ").
Proof.
  change (whitespaceOnly (" " +:+ byte_string [9%N] +:+ " " +:+ "")).
  repeat (apply whitespaceOnly_rune; [unfold unicodeSpaces; simpl; set_solver|]).
  constructor.
Qed.

Lemma blank_secret_is_unconfigured_witness :
  let config := mkConfig (" " +:+ byte_string [9%N] +:+ " ") "bf_admin" [] in
  AdminSecret config ≠ EmptyString
  ∧ (∀ ctx, forwards (AdminAuthMiddleware config) ctx ctx)
  ∧ (∀ content ctx,
       loginSubmit (mkUIHandler content (Some config)) ctx
       = SendError ctx StatusServiceUnavailable "admin auth not configured").
Proof.
  split; [discriminate|].
  apply (blank_secret_is_unconfigured
           (mkConfig (" " +:+ byte_string [9%N] +:+ " ") "bf_admin" [])).
  exact three_blanks.
Defined.




(** C2, evaluated where the code departs from it.  Each header below, once
    trimmed, starts with [bearer ] in some case and is followed by the secret,
    under a secret that is not empty and on a path that is not public; the
    gate lets the first two of them through and turns down the last two,
    whose white space before [Bearer] is two bytes long: the token is cut from
    the header as it came, and comes out as [r s3cr3t]. *)
Theorem bearer_after_white_space (next : RequestHandler) :
  let config := mkConfig "s3cr3t" "bf_admin" [] in
  let tab := byte_string [9%N] in
  let ctx auth :=
    mkCtx (mkRequest "GET" "/settings" "/settings"
             [("Authorization", auth); ("Accept", "text/html")] [] [] [] "")
      emptyResponse [] in
  let meetsClaim auth := bearerToken auth = Some (AdminSecret config) in
  let refused auth :=
    SetStatusCode StatusFound
      (ResponseHeaderSet "Location" "/admin/login?next=%2Fsettings" (ctx auth)) in
  let letThrough auth := AdminAuthMiddleware config next (ctx auth) = next (ctx auth) in
  let turnedDown auth := AdminAuthMiddleware config next (ctx auth) = refused auth in
  (meetsClaim "bEARER   s3cr3t " ∧ letThrough "bEARER   s3cr3t ")
  ∧ (meetsClaim " Bearer s3cr3t" ∧ letThrough " Bearer s3cr3t")
  ∧ (meetsClaim "  Bearer s3cr3t" ∧ turnedDown "  Bearer s3cr3t")
  ∧ (meetsClaim (tab +:+ tab +:+ "Bearer s3cr3t")
     ∧ turnedDown (tab +:+ tab +:+ "Bearer s3cr3t"))
  ∧ strings_TrimSpace (string_drop (String.length "Bearer ") "  Bearer s3cr3t") = "r s3cr3t".
Proof.
  repeat split; vm_compute; reflexivity.
Qed.

(** The slice [auth[len("Bearer "):]] of the bearer check is within the
    header whenever the check reaches it: a header whose trimmed, lowered
    text starts with [bearer ] is seven bytes long at least, so the total
    [string_drop] of the model does what the slice does. *)
Theorem bearer_slice_in_range (auth : string) :
  strings_HasPrefix (strings_ToLower (strings_TrimSpace auth)) "bearer " = true →
  String.length "Bearer " ≤ String.length auth.
Proof. exact (bearer_slice_range_aux auth). Qed.

Lemma bearer_slice_in_range_witness :
  String.length "Bearer " ≤ String.length "  bearer s3cr3t ".
Proof. apply bearer_slice_in_range. reflexivity. Defined.

(** On an [Authorization] header with no white space in front, the bearer
    check of the gate is the one the spec describes: it succeeds exactly when
    the trimmed header starts with [bearer ] (in any case) and the trimmed
    rest is the secret, and the request is then handed to the next stage. *)
Theorem bearer_without_leading_space (config : Config) (ctx : RequestCtx) :
  let auth := RequestHeaderPeek "Authorization" ctx in
  stripSpace auth = None →
  (bearerMatches auth (AdminSecret config) = true
   ↔ bearerToken auth = Some (AdminSecret config))
  ∧ (bearerToken auth = Some (AdminSecret config) →
     forwards (AdminAuthMiddleware config) ctx ctx).
Proof.
  intros auth Hnone.
  assert (Hiff : bearerMatches auth (AdminSecret config) = true
                 ↔ bearerToken auth = Some (AdminSecret config)).
  { unfold bearerMatches, bearerToken.
    destruct (strings_HasPrefix (strings_ToLower (strings_TrimSpace auth)) "bearer ")
      eqn:Hprefix.
    - rewrite (bearer_token_agrees auth Hnone Hprefix).
      pose proof (bearer_slice_range_aux auth Hprefix) as Hlen.
      assert (Hne : String.eqb auth "" = false).
      { apply String.eqb_neq. intros ->. simpl in Hlen. lia. }
      rewrite Hne. simpl. rewrite String.eqb_eq. split; [by intros -> | by intros [= ->]].
    - rewrite andb_false_r. simpl. split; discriminate. }
  split; [exact Hiff|].
  intros Htoken next. apply Hiff in Htoken. unfold AdminAuthMiddleware.
  fold auth. rewrite Htoken.
  destruct (String.eqb (strings_TrimSpace (AdminSecret config)) ""); [reflexivity|].
  destruct (isPublicPath _ _); reflexivity.
Qed.

Lemma bearer_without_leading_space_witness :
  let config := mkConfig "s3cr3t" "bf_admin" [] in
  let ctx := mkCtx (mkRequest "DELETE" "/api/keys/7" "/api/keys/7"
                      [("Authorization", "BEARER  s3cr3t" +:+ byte_string [9%N])] [] [] [] "")
               emptyResponse [] in
  forwards (AdminAuthMiddleware config) ctx ctx.
Proof.
  intros config ctx.
  assert (Hnone : stripSpace (RequestHeaderPeek "Authorization" ctx) = None)
    by (vm_compute; reflexivity).
  apply (proj2 (bearer_without_leading_space config ctx Hnone)).
  vm_compute. reflexivity.
Defined.

(** The public paths of the admin gate, as a table. *)
Theorem isPublicPath_table (method path : string) :
  isPublicPath method path = true ↔
    (path = "/metrics" ∧ method = "GET")
    ∨ (strings_HasPrefix path "/v1/" = true ∧ method = "POST")
    ∨ ((strings_HasPrefix path "/openai/" = true ∨ strings_HasPrefix path "/openai/v1/" = true)
       ∧ method = "POST")
    ∨ ((path = "/openai/models" ∨ path = "/openai/v1/models") ∧ method = "GET")
    ∨ strings_HasPrefix path "/admin/login" = true
    ∨ (path = "/api/version" ∧ method = "GET").
Proof.
  rewrite isPublicPath_bool.
  rewrite !orb_true_iff, !andb_true_iff, !orb_true_iff, !String.eqb_eq. tauto.
Qed.

(** ** The decision of the admin gate *)

Lemma AdminAuthMiddleware_run config next ctx :
  AdminAuthMiddleware config next ctx
  = if gateOpens config ctx then next ctx else refusal ctx.
Proof.
  unfold AdminAuthMiddleware, gateOpens, refusal, wantsStructured. cbv zeta.
  destruct (String.eqb (strings_TrimSpace (AdminSecret config)) ""); [reflexivity|].
  destruct (isPublicPath _ _); [reflexivity|].
  destruct (bearerMatches _ _); [reflexivity|].
  destruct (cookieMatches _ _); [reflexivity|].
  destruct (strings_Contains _ "application/json"),
    (strings_EqualFold _ "XMLHttpRequest"),
    (strings_HasPrefix (reqPath (ctxRequest ctx)) "/api/"),
    (strings_HasPrefix (reqPath (ctxRequest ctx)) "/v1/"); reflexivity.
Qed.

Lemma refusal_status ctx :
  respStatusCode (ctxResponse (refusal ctx)) = (if wantsStructured ctx then 401 else 302)%Z.
Proof. unfold refusal. destruct (wantsStructured ctx); reflexivity. Qed.

Lemma refusal_is_no_forward ctx : refusal ctx ≠ SetStatusCode StatusOK ctx.
Proof.
  intros Heq. apply (f_equal (λ c, respStatusCode (ctxResponse c))) in Heq.
  rewrite refusal_status in Heq. simpl in Heq.
  destruct (wantsStructured ctx); discriminate.
Qed.

Lemma gate_forwards_iff config ctx :
  forwards (AdminAuthMiddleware config) ctx ctx ↔ gateOpens config ctx = true.
Proof.
  split.
  - intros Hforwards. specialize (Hforwards (SetStatusCode StatusOK)).
    rewrite AdminAuthMiddleware_run in Hforwards.
    destruct (gateOpens config ctx); [reflexivity|].
    by apply refusal_is_no_forward in Hforwards.
  - intros Hopen next. by rewrite AdminAuthMiddleware_run, Hopen.
Qed.


(** ** A secret with white space around it *)

Lemma bearerMatches_trimmed auth secret :
  bearerMatches auth secret = true → strings_TrimSpace secret = secret.
Proof.
  unfold bearerMatches. rewrite !andb_true_iff. intros [_ Heq].
  apply String.eqb_eq in Heq. rewrite <- Heq. apply TrimSpace_idempotent.
Qed.

Lemma bearerToken_trimmed auth secret :
  bearerToken auth = Some secret → strings_TrimSpace secret = secret.
Proof.
  unfold bearerToken.
  destruct (strings_HasPrefix _ "bearer "); [|discriminate].
  intros [= <-]. apply TrimSpace_idempotent.
Qed.

(** The token of a bearer header is trimmed before it is compared with
    [AdminSecret], which is taken as it is configured: a secret with white
    space at its start or its end is never matched by a bearer token,
    whatever the header.  Under such a secret the gate opens only when the
    secret is blank, the path is public, or the cookie holds the secret. *)
Theorem padded_secret_has_no_bearer (config : Config) (ctx : RequestCtx) :
  strings_TrimSpace (AdminSecret config) ≠ AdminSecret config →
  (∀ auth, bearerMatches auth (AdminSecret config) = false
           ∧ bearerToken auth ≠ Some (AdminSecret config))
  ∧ (forwards (AdminAuthMiddleware config) ctx ctx
     ↔ whitespaceOnly (AdminSecret config)
       ∨ isPublicPath (reqMethod (ctxRequest ctx)) (reqPath (ctxRequest ctx)) = true
       ∨ cookieMatches (peekArg (AdminCookieName config) (reqCookies (ctxRequest ctx)))
           (AdminSecret config) = true).
Proof.
  intros Hpadded.
  assert (Hbearer : ∀ auth, bearerMatches auth (AdminSecret config) = false).
  { intros auth. destruct (bearerMatches auth (AdminSecret config)) eqn:E; [|reflexivity].
    by apply bearerMatches_trimmed in E. }
  split.
  - intros auth. split; [apply Hbearer|].
    intros Htoken. by apply bearerToken_trimmed in Htoken.
  - rewrite gate_forwards_iff. unfold gateOpens. rewrite Hbearer, orb_false_r.
    rewrite !orb_true_iff, String.eqb_eq, TrimSpace_blank_iff. tauto.
Qed.

Lemma padded_secret_has_no_bearer_witness :
  let config := mkConfig "s3cr3t " "bf_admin" [] in
  let ctx := mkCtx (mkRequest "GET" "/settings" "/settings"
                      [("Authorization", "Bearer s3cr3t ")] [] [] [] "")
               emptyResponse [] in
  bearerMatches "Bearer s3cr3t " (AdminSecret config) = false
  ∧ ¬ forwards (AdminAuthMiddleware config) ctx ctx.
Proof.
  intros config ctx.
  assert (Hpadded : strings_TrimSpace (AdminSecret config) ≠ AdminSecret config)
    by (vm_compute; discriminate).
  destruct (padded_secret_has_no_bearer config ctx Hpadded) as [Hbearer Hiff].
  split; [exact (proj1 (Hbearer "Bearer s3cr3t "))|].
  intros Hforwards. apply Hiff in Hforwards as [Hblank|[Hpublic|Hcookie]].
  - apply TrimSpace_blank_iff in Hblank. vm_compute in Hblank. discriminate Hblank.
  - vm_compute in Hpublic. discriminate Hpublic.
  - vm_compute in Hcookie. discriminate Hcookie.
Defined.

(** ** The redirect to the login page *)











(** ** The login form *)




(** [logout] expires the admin cookie (empty value, the epoch as expiry, a
    negative max-age, path [/]) and redirects to the login page. *)
Theorem logout_clears_cookie (h : UIHandler) (ctx : RequestCtx) :
  let out := ctxResponse (logout h ctx) in
  let name :=
    match config h with
    | Some cfg =>
        if String.eqb (strings_TrimSpace (AdminCookieName cfg)) "" then "bf_admin"
        else AdminCookieName cfg
    | None => "bf_admin"
    end in
  respStatusCode out = 302%Z
  ∧ peekArg "Location" (respHeader out) = "/admin/login"
  ∧ mkCookie name "" "/" false (Some 0%Z) (-1) ∈ respCookies out.
Proof.
  unfold logout. simpl. split; [reflexivity|]. split; [apply peekArg_setArg_eq|].
  destruct (config h) as [cfg|]; [|apply setCookie_In].
  destruct (String.eqb (strings_TrimSpace (AdminCookieName cfg)) ""); apply setCookie_In.
Qed.

(** ** Login, the session cookie and the gate *)

Lemma TrimSpace_nonempty s : strings_TrimSpace s ≠ EmptyString → s ≠ EmptyString.
Proof. intros Hne ->. by apply Hne. Qed.

Lemma loginSubmit_success h cfg ctx :
  rightPassword h cfg ctx →
  loginSubmit h ctx
  = let next := peekArg "next" (reqPostArgs (ctxRequest ctx)) in
    SetStatusCode StatusFound
      (ResponseHeaderSet "Location"
         (if String.eqb next "" || strings_Contains next "://" then "/" else next)
         (ResponseSetCookie (sessionCookie cfg) ctx)).
Proof.
  intros (Hcfg & Hsecret & Hpassword). unfold loginSubmit. rewrite Hcfg.
  pose proof (TrimSpace_nonempty _ Hsecret) as Hne.
  apply String.eqb_neq in Hsecret. rewrite Hsecret.
  rewrite Hpassword. apply String.eqb_neq in Hne. rewrite Hne, String.eqb_refl.
  reflexivity.
Qed.

Lemma sessionCookie_set h cfg ctx :
  rightPassword h cfg ctx →
  sessionCookie cfg ∈ respCookies (ctxResponse (loginSubmit h ctx)).
Proof. intros Hright. rewrite (loginSubmit_success h cfg ctx Hright). apply setCookie_In. Qed.

(** The round trip of a login: under a cookie name that is not empty, the
    cookie a successful login sets (named [AdminCookieName], the secret as
    its value, HTTP-only, path [/]) opens the admin gate of the same
    configuration on every later request that presents it. *)
Theorem login_cookie_opens_gate (h : UIHandler) (cfg : Config) (ctx : RequestCtx) :
  rightPassword h cfg ctx →
  AdminCookieName cfg ≠ EmptyString →
  ∃ c, c ∈ respCookies (ctxResponse (loginSubmit h ctx))
       ∧ cookieKey c = AdminCookieName cfg
       ∧ cookieValue c = AdminSecret cfg
       ∧ cookieHTTPOnly c = true
       ∧ cookiePath c = "/"
       ∧ ∀ ctx', presents c ctx' → forwards (AdminAuthMiddleware cfg) ctx' ctx'.
Proof.
  intros Hright Hname. exists (sessionCookie cfg).
  split; [by apply (sessionCookie_set h)|].
  apply String.eqb_neq in Hname.
  unfold sessionCookie. rewrite Hname. simpl. repeat split.
  intros ctx' Hpresents. unfold presents in Hpresents. simpl in Hpresents.
  apply gate_forwards_iff. unfold gateOpens. rewrite Hpresents.
  destruct Hright as (_ & Hsecret & _). apply TrimSpace_nonempty in Hsecret.
  apply String.eqb_neq in Hsecret.
  unfold cookieMatches. rewrite Hsecret, String.eqb_refl. simpl.
  by rewrite !orb_true_r.
Qed.

Lemma login_cookie_opens_gate_witness :
  let cfg := mkConfig "s3cr3t" "bf_session" [] in
  let h := NewUIHandlerWithDeps ∅ (Some cfg) in
  let post := mkCtx (mkRequest "POST" "/admin/login" "/admin/login" [] [] []
                       [("password", "s3cr3t"); ("next", "/settings")] "")
                emptyResponse [] in
  let later := mkCtx (mkRequest "DELETE" "/api/keys/7" "/api/keys/7" []
                        [("theme", "dark"); ("bf_session", "s3cr3t")] [] [] "")
                 emptyResponse [] in
  respCookies (ctxResponse (loginSubmit h post)) = [mkCookie "bf_session" "s3cr3t" "/" true None 0]
  ∧ forwards (AdminAuthMiddleware cfg) later later.
Proof.
  intros cfg h post later.
  assert (Hright : rightPassword h cfg post).
  { split; [reflexivity|]. split; [vm_compute; discriminate | reflexivity]. }
  assert (Hname : AdminCookieName cfg ≠ EmptyString) by discriminate.
  destruct (login_cookie_opens_gate h cfg post Hright Hname)
    as (c & Hin & Hkey & Hvalue & _ & _ & Hopens).
  split; [reflexivity|].
  apply Hopens. unfold presents. rewrite Hkey, Hvalue. reflexivity.
Defined.



(** [loginSubmit] sets a cookie and redirects for the right password only:
    in every other case the cookies and the headers of the response stay as
    they were, and the status is 503, 400 or 401. *)
Theorem loginSubmit_cookie_needs_password (h : UIHandler) (ctx : RequestCtx) :
  let out := ctxResponse (loginSubmit h ctx) in
  (∃ cfg, rightPassword h cfg ctx
          ∧ respStatusCode out = 302%Z
          ∧ respCookies out = setCookie (sessionCookie cfg) (respCookies (ctxResponse ctx)))
  ∨ (respCookies out = respCookies (ctxResponse ctx)
     ∧ respHeader out = respHeader (ctxResponse ctx)
     ∧ (respStatusCode out = 503%Z ∨ respStatusCode out = 400%Z ∨ respStatusCode out = 401%Z)
     ∧ ¬ ∃ cfg, rightPassword h cfg ctx).
Proof.
  intros out. subst out.
  destruct (config h) as [cfg|] eqn:Hcfg.
  - destruct (String.eqb (strings_TrimSpace (AdminSecret cfg)) "") eqn:Hblank.
    + right. unfold loginSubmit. rewrite Hcfg, Hblank. repeat split; [by left|].
      intros (cfg' & Hcfg' & Hsecret & _). rewrite Hcfg in Hcfg'. injection Hcfg' as <-.
      apply String.eqb_eq in Hblank. contradiction.
    + destruct (String.eqb (peekArg "password" (reqPostArgs (ctxRequest ctx)))
                  (AdminSecret cfg)) eqn:Hpassword.
      * left. exists cfg.
        assert (Hright : rightPassword h cfg ctx).
        { split; [exact Hcfg|]. split; [by apply String.eqb_neq | by apply String.eqb_eq]. }
        split; [exact Hright|]. rewrite (loginSubmit_success h cfg ctx Hright).
        split; reflexivity.
      * right. unfold loginSubmit. rewrite Hcfg, Hblank, Hpassword.
        assert (Hwrong : ¬ ∃ cfg', rightPassword h cfg' ctx).
        { intros (cfg' & Hcfg' & _ & Heq). rewrite Hcfg in Hcfg'. injection Hcfg' as <-.
          apply String.eqb_neq in Hpassword. contradiction. }
        destruct (String.eqb (peekArg "password" (reqPostArgs (ctxRequest ctx))) "");
          repeat split; auto.
  - right. unfold loginSubmit. rewrite Hcfg. repeat split; [by left|].
    intros (cfg' & Hcfg' & _). congruence.
Qed.

(** [logout] expires the cookie the login set, whenever [AdminCookieName] is
    empty or not blank: the cookie of the logout has the name and the path of
    the session cookie, an empty value, the epoch as its expiry and a
    negative max-age; and the empty value is no credential for the gate. *)
Theorem logout_expires_login_cookie (h : UIHandler) (cfg : Config)
    (ctx ctx' : RequestCtx) :
  rightPassword h cfg ctx →
  AdminCookieName cfg = EmptyString
  ∨ strings_TrimSpace (AdminCookieName cfg) ≠ EmptyString →
  ∃ c c', c ∈ respCookies (ctxResponse (loginSubmit h ctx))
          ∧ c' ∈ respCookies (ctxResponse (logout h ctx'))
          ∧ cookieKey c' = cookieKey c
          ∧ cookiePath c' = cookiePath c
          ∧ cookieValue c' = EmptyString
          ∧ cookieExpire c' = Some 0%Z
          ∧ (cookieMaxAge c' < 0)%Z
          ∧ cookieMatches (cookieValue c') (AdminSecret cfg) = false.
Proof.
  intros Hright Hname. pose proof Hright as (Hcfg & _).
  exists (sessionCookie cfg).
  exists (mkCookie (cookieKey (sessionCookie cfg)) "" "/" false (Some 0%Z) (-1)).
  split; [by apply (sessionCookie_set h)|]. split.
  - unfold logout. rewrite Hcfg. simpl.
    assert (Hkey : (if negb (String.eqb (strings_TrimSpace (AdminCookieName cfg)) "")
                    then AdminCookieName cfg else "bf_admin")
                   = (if String.eqb (AdminCookieName cfg) "" then "bf_admin"
                      else AdminCookieName cfg)).
    { destruct Hname as [Hempty|Hnotblank].
      - rewrite Hempty. reflexivity.
      - pose proof (TrimSpace_nonempty _ Hnotblank) as Hne.
        apply String.eqb_neq in Hnotblank. apply String.eqb_neq in Hne.
        rewrite Hnotblank, Hne. reflexivity. }
    rewrite Hkey. apply setCookie_In.
  - repeat split.
Qed.

Lemma logout_expires_login_cookie_witness :
  let cfg := mkConfig "s3cr3t" "bf_session" [] in
  let h := NewUIHandlerWithDeps ∅ (Some cfg) in
  let post := mkCtx (mkRequest "POST" "/admin/login" "/admin/login" [] [] []
                       [("password", "s3cr3t")] "")
                emptyResponse [] in
  let get := mkCtx (mkRequest "GET" "/admin/logout" "/admin/logout" []
                      [("bf_session", "s3cr3t")] [] [] "")
               emptyResponse [] in
  ∃ c c', c ∈ respCookies (ctxResponse (loginSubmit h post))
          ∧ c' ∈ respCookies (ctxResponse (logout h get))
          ∧ cookieKey c' = cookieKey c
          ∧ cookiePath c' = cookiePath c
          ∧ cookieValue c' = EmptyString
          ∧ cookieExpire c' = Some 0%Z
          ∧ (cookieMaxAge c' < 0)%Z
          ∧ cookieMatches (cookieValue c') (AdminSecret cfg) = false.
Proof.
  intros cfg h post get.
  assert (Hright : rightPassword h cfg post).
  { split; [reflexivity|]. split; [vm_compute; discriminate | reflexivity]. }
  assert (Hname : AdminCookieName cfg = EmptyString
                  ∨ strings_TrimSpace (AdminCookieName cfg) ≠ EmptyString).
  { right. vm_compute. discriminate. }
  exact (logout_expires_login_cookie h cfg post get Hright Hname).
Defined.

(** ** The login page *)

Lemma strings_Contains_prefix s substr :
  string_prefix substr s = true → strings_Contains s substr = true.
Proof. intros H. destruct s; simpl; rewrite H; reflexivity. Qed.

Lemma string_prefix_self_app s t : string_prefix s (s +:+ t) = true.
Proof.
  induction s as [|c s IH]; [reflexivity|].
  rewrite string_app_cons. simpl. by rewrite Ascii.eqb_refl, IH.
Qed.

Lemma strings_Contains_app a s b : strings_Contains (a +:+ s +:+ b) s = true.
Proof.
  induction a as [|c a IH].
  - rewrite string_app_nil_l. apply strings_Contains_prefix, string_prefix_self_app.
  - rewrite string_app_cons. simpl. rewrite IH. apply orb_true_r.
Qed.

(** The form is the same text around the target, for every target. *)
Lemma loginForm_split :
  ∃ head tail,
    strings_HasSuffix head ("name=" +:+ quote +:+ "next" +:+ quote +:+ " value=" +:+ quote)
    = true
    ∧ strings_HasPrefix tail (quote +:+ " />") = true
    ∧ ∀ target, loginForm target = head +:+ target +:+ tail.
Proof.
  exists (string_take 604 (loginForm "")), (string_drop 604 (loginForm "")).
  split; [vm_compute; reflexivity|]. split; [vm_compute; reflexivity|].
  intros target. unfold loginForm. cbv zeta. rewrite !string_app_assoc.
  vm_compute. reflexivity.
Qed.

(** [loginPage] answers every request with 200 and the HTML form, whose
    hidden field carries the [next] query argument ([/] when there is none)
    byte for byte, between the quotes of its [value] attribute: nothing of it
    is escaped.  The headers and cookies of the response and the request are
    left alone. *)
Theorem loginPage_reflects_next (h : UIHandler) (ctx : RequestCtx) :
  let next := peekArg "next" (reqQueryArgs (ctxRequest ctx)) in
  let shown := if String.eqb next "" then "/" else next in
  let out := loginPage h ctx in
  respStatusCode (ctxResponse out) = 200%Z
  ∧ respContentType (ctxResponse out) = "text/html; charset=utf-8"
  ∧ respBody (ctxResponse out) = BodyBytes (loginForm shown)
  ∧ strings_Contains (loginForm shown)
      ("value=" +:+ quote +:+ shown +:+ quote +:+ " />") = true
  ∧ respHeader (ctxResponse out) = respHeader (ctxResponse ctx)
  ∧ respCookies (ctxResponse out) = respCookies (ctxResponse ctx)
  ∧ ctxRequest out = ctxRequest ctx.
Proof.
  intros next shown out. repeat split.
  destruct loginForm_split as (head & tail & Hhead & Htail & Hform).
  rewrite Hform.
  unfold strings_HasSuffix in Hhead. apply string_prefix_app in Hhead.
  apply (f_equal String.rev) in Hhead. rewrite string_rev_involutive in Hhead.
  rewrite string_rev_app, string_rev_involutive in Hhead.
  unfold strings_HasPrefix in Htail. apply string_prefix_app in Htail.
  rewrite Hhead, Htail.
  set (front := String.rev (string_drop _ (String.rev head))).
  set (back := string_drop _ tail).
  replace ((front +:+ "name=" +:+ quote +:+ "next" +:+ quote +:+ " value=" +:+ quote)
           +:+ shown +:+ (quote +:+ " />") +:+ back)
    with ((front +:+ "name=" +:+ quote +:+ "next" +:+ quote +:+ " ")
          +:+ ("value=" +:+ quote +:+ shown +:+ quote +:+ " />") +:+ back).
  - apply strings_Contains_app.
  - rewrite !string_app_assoc. reflexivity.
Qed.

(** ** The chain of middlewares *)

Section Chain.
Context {C R : Type}.
Implicit Types (handler : C → R) (m : (C → R) → C → R) (ms : list ((C → R) → C → R)).

(** The loop has wrapped the last [length after] middlewares when it has
    [length before] rounds left. *)
Lemma chainLoop_prefix before after handler :
  chainLoop (before ++ after) (length before) handler
  = foldr (λ m next, m next) handler before.
Proof.
  revert after handler.
  induction before as [|m before IH] using rev_ind; intros after handler.
  - reflexivity.
  - rewrite length_app, Nat.add_comm. simpl.
    rewrite <- app_assoc. simpl.
    rewrite list_lookup_middle by reflexivity.
    rewrite IH, foldr_app. reflexivity.
Qed.

Lemma ChainMiddlewares_foldr handler ms :
  ChainMiddlewares handler ms = foldr (λ m next, m next) handler ms.
Proof.
  unfold ChainMiddlewares. destruct (decide (length ms = 0)) as [Hnil|_].
  - destruct ms; [reflexivity | discriminate].
  - rewrite <- (app_nil_r ms) at 1. apply chainLoop_prefix.
Qed.

Lemma forwardsAll_foldr ms s s' next :
  forwardsAll ms s s' → foldr (λ m next, m next) next ms s = next s'.
Proof.
  induction 1 as [s|m ms s s' s'' Hm _ IH]; simpl.
  - reflexivity.
  - rewrite Hm. exact IH.
Qed.

End Chain.

(** C5.  [ChainMiddlewares] wraps the handler in the middlewares from the
    last to the first, so that the chain is [m1 (m2 (... (mn handler)))]: an
    empty list gives the handler itself and the first middleware runs first.
    When the middlewares before [m] forward and [m] answers without its next
    stage, the answer owes nothing to the middlewares after [m] or to the
    handler; when all forward, the handler runs on the state they leave, one
    after the other in the order of the list. *)
Theorem ChainMiddlewares_order {C R : Type} (handler : C → R)
    (middlewares : list ((C → R) → C → R)) :
  ChainMiddlewares handler middlewares = foldr (λ m next, m next) handler middlewares
  ∧ ChainMiddlewares handler [] = handler
  ∧ (∀ m, ChainMiddlewares handler (m :: middlewares)
          = m (ChainMiddlewares handler middlewares))
  ∧ (∀ s s', forwardsAll middlewares s s' →
             ChainMiddlewares handler middlewares s = handler s')
  ∧ (∀ m after s s',
       forwardsAll middlewares s s' → shortCircuits m s' →
       ∀ next handler' after',
         ChainMiddlewares handler (middlewares ++ m :: after) s = m next s'
         ∧ ChainMiddlewares handler (middlewares ++ m :: after) s
           = ChainMiddlewares handler' (middlewares ++ m :: after') s).
Proof.
  split; [apply ChainMiddlewares_foldr|].
  split; [reflexivity|].
  split; [intros m; rewrite !ChainMiddlewares_foldr; reflexivity|].
  split.
  - intros s s' Hall. rewrite ChainMiddlewares_foldr. by apply forwardsAll_foldr.
  - intros m after s s' Hall Hm next handler' after'.
    rewrite !ChainMiddlewares_foldr, !foldr_app. simpl.
    rewrite !(forwardsAll_foldr _ _ _ _ Hall). split; apply Hm.
Qed.

Lemma ChainMiddlewares_order_witness :
  let open := AdminAuthMiddleware (mkConfig "" "bf_admin" []) in
  let gate := AdminAuthMiddleware (mkConfig "s3cr3t" "bf_admin" []) in
  let mark (text : string) : BifrostHTTPMiddleware := λ next ctx, next (SetBodyString text ctx) in
  let anonymous := mkCtx (mkRequest "GET" "/api/keys" "/api/keys" [] [] [] [] "") emptyResponse [] in
  ChainMiddlewares (SetContentType "a") [open; mark "first"; mark "second"] anonymous
  = SetContentType "a" (SetBodyString "second" (SetBodyString "first" anonymous))
  ∧ ChainMiddlewares (SetContentType "a") [open; mark "first"; gate; mark "second"] anonymous
    = SendError (SetBodyString "first" anonymous) StatusUnauthorized
        "admin authentication required"
  ∧ ChainMiddlewares (SetContentType "a") [open; mark "first"; gate; mark "second"] anonymous
    = ChainMiddlewares (SetContentType "b") [open; mark "first"; gate] anonymous.
Proof.
  intros open gate mark anonymous.
  assert (Hfw : forwardsAll [open; mark "first"] anonymous (SetBodyString "first" anonymous)).
  { eapply forwardsAll_cons; [intros next; reflexivity|].
    eapply forwardsAll_cons; [intros next; reflexivity|]. constructor. }
  assert (Hfw3 : forwardsAll [open; mark "first"; mark "second"] anonymous
                   (SetBodyString "second" (SetBodyString "first" anonymous))).
  { eapply forwardsAll_cons; [intros next; reflexivity|].
    eapply forwardsAll_cons; [intros next; reflexivity|].
    eapply forwardsAll_cons; [intros next; reflexivity|]. constructor. }
  assert (Hsc : shortCircuits gate (SetBodyString "first" anonymous)).
  { intros next next'. reflexivity. }
  destruct (ChainMiddlewares_order (SetContentType "a") [open; mark "first"; mark "second"])
    as (_ & _ & _ & Hall & _).
  destruct (ChainMiddlewares_order (SetContentType "a") [open; mark "first"])
    as (_ & _ & _ & _ & Hstop).
  destruct (Hstop gate [mark "second"] _ _ Hfw Hsc (λ c, c) (SetContentType "b") [])
    as [Hanswer Hsame].
  split; [exact (Hall _ _ Hfw3) | split; [exact Hanswer | exact Hsame]].
Defined.

(** ** The static UI *)

Lemma sendFile_body cleanPath data ctx :
  respBody (ctxResponse (sendFile cleanPath data ctx)) = BodyBytes data.
Proof.
  unfold sendFile.
  destruct (strings_HasPrefix cleanPath "ui/_next/static/"),
    (String.eqb (filepath_Ext cleanPath) ".html"); reflexivity.
Qed.

Lemma sendFile_status cleanPath data ctx :
  respStatusCode (ctxResponse (sendFile cleanPath data ctx))
  = respStatusCode (ctxResponse ctx).
Proof.
  unfold sendFile.
  destruct (strings_HasPrefix cleanPath "ui/_next/static/"),
    (String.eqb (filepath_Ext cleanPath) ".html"); reflexivity.
Qed.

(** [serveDashboard] by the entry it looks up first. *)
Lemma serveDashboard_resolved h ctx :
  serveDashboard h ctx =
  let requestPath := reqPath (ctxRequest ctx) in
  let p := resolvedPath requestPath in
  match ReadFile h p with
  | Some data => sendFile p data ctx
  | None =>
      if isAsset p
      then notFound ("404 - Static asset not found: " +:+ requestPath) ctx
      else
        match ReadFile h (p +:+ "/index.html") with
        | Some data => sendFile (p +:+ "/index.html") data ctx
        | None =>
            match ReadFile h "ui/index.html" with
            | None => notFound "404 - File not found" ctx
            | Some data => sendFile "ui/index.html" data ctx
            end
        end
  end.
Proof.
  unfold serveDashboard, resolvedPath, isAsset. cbv zeta.
  destruct (ReadFile h _); [reflexivity|].
  destruct (strings_Contains _ "."); reflexivity.
Qed.

(** C6.  [serveDashboard] looks the request up in the bundle in this order:
    the resolved path itself, served when it is there; when it is not and its
    last element has a dot, 404 without a fallback; when it is not and has no
    dot, [<path>/index.html], then the root [ui/index.html], then 404.  To
    serve an entry is to answer with its bytes and to leave the status as it
    was, 200 on a fresh response. *)
Theorem serveDashboard_lookup_order (h : UIHandler) (ctx : RequestCtx) :
  let requestPath := reqPath (ctxRequest ctx) in
  let p := resolvedPath requestPath in
  let out := serveDashboard h ctx in
  let served name data :=
    out = sendFile name data ctx
    ∧ respBody (ctxResponse out) = BodyBytes data
    ∧ (respStatusCode (ctxResponse ctx) = 200%Z → respStatusCode (ctxResponse out) = 200%Z) in
  let missing := respStatusCode (ctxResponse out) = 404%Z in
  (∀ data, ReadFile h p = Some data → served p data)
  ∧ (ReadFile h p = None → isAsset p = true →
       missing ∧ out = notFound ("404 - Static asset not found: " +:+ requestPath) ctx)
  ∧ (ReadFile h p = None → isAsset p = false →
       (∀ data, ReadFile h (p +:+ "/index.html") = Some data →
                served (p +:+ "/index.html") data)
       ∧ (ReadFile h (p +:+ "/index.html") = None →
            (∀ data, ReadFile h "ui/index.html" = Some data → served "ui/index.html" data)
            ∧ (ReadFile h "ui/index.html" = None → missing))).
Proof.
  cbv zeta. rewrite serveDashboard_resolved. cbv zeta.
  set (requestPath := reqPath (ctxRequest ctx)). set (p := resolvedPath requestPath).
  assert (Hserved : ∀ out name data,
    out = sendFile name data ctx →
    out = sendFile name data ctx
    ∧ respBody (ctxResponse out) = BodyBytes data
    ∧ (respStatusCode (ctxResponse ctx) = 200%Z → respStatusCode (ctxResponse out) = 200%Z)).
  { intros out name data ->. rewrite sendFile_body, sendFile_status. auto. }
  split; [|split].
  - intros data Hp. apply Hserved. rewrite Hp. reflexivity.
  - intros Hp Hasset. rewrite Hp, Hasset. split; reflexivity.
  - intros Hp Hasset. rewrite Hp, Hasset. split.
    + intros data Hindex. apply Hserved. rewrite Hindex. reflexivity.
    + intros Hindex. rewrite Hindex. split.
      * intros data Hroot. apply Hserved. rewrite Hroot. reflexivity.
      * intros Hroot. rewrite Hroot. reflexivity.
Qed.

Lemma serveDashboard_lookup_order_witness :
  let h := mkUIHandler {[ "ui/index.html" := "<html>root</html>" ]} None in
  let ctx := mkCtx (mkRequest "GET" "/dashboard" "/dashboard" [] [] [] [] "") emptyResponse [] in
  let out := serveDashboard h ctx in
  resolvedPath "/dashboard" = "ui/dashboard"
  ∧ out = sendFile "ui/index.html" "<html>root</html>" ctx
  ∧ respBody (ctxResponse out) = BodyBytes "<html>root</html>"
  ∧ respStatusCode (ctxResponse out) = 200%Z.
Proof.
  intros h ctx out.
  destruct (serveDashboard_lookup_order h ctx) as (_ & _ & Hroute).
  destruct (Hroute eq_refl eq_refl) as [_ Hfallback].
  destruct (Hfallback eq_refl) as [Hroot _].
  destruct (Hroot "<html>root</html>" eq_refl) as (Hout & Hbody & Hstatus).
  split; [reflexivity|]. split; [exact Hout|]. split; [exact Hbody|].
  exact (Hstatus eq_refl).
Defined.

(** The scenario of a bundle that holds [ui/index.html] only: [GET /] is
    answered with 200, the HTML content type, [Cache-Control: no-cache] and
    the bytes of the entry; an asset that is not in the bundle gets a 404;
    an entry under [ui/_next/static/] is served as immutable. *)
Theorem serveDashboard_scenarios :
  let h := mkUIHandler {[ "ui/index.html" := "<html>root</html>" ]} None in
  let assets := mkUIHandler {[ "ui/index.html" := "<html>root</html>";
                               "ui/_next/static/app.js" := "let a = 1" ]} None in
  let get path := mkCtx (mkRequest "GET" path path [] [] [] [] "") emptyResponse [] in
  ctxResponse (serveDashboard h (get "/"))
  = mkResponse 200 "text/html; charset=utf-8" [("Cache-Control", "no-cache")] []
      (BodyBytes "<html>root</html>")
  ∧ ctxResponse (serveDashboard h (get "/logo.png"))
    = mkResponse 404 "text/plain; charset=utf-8" [] []
        (BodyBytes "404 - Static asset not found: /logo.png")
  ∧ ctxResponse (serveDashboard assets (get "/_next/static/../static/app.js"))
    = mkResponse 200 "text/javascript; charset=utf-8"
        [("Cache-Control", "public, max-age=31536000, immutable")] []
        (BodyBytes "let a = 1").
Proof.
  vm_compute. repeat split.
Qed.

(** ** The bundle names of the dashboard *)

Lemma splitSlash_nonempty s : splitSlash s ≠ [].
Proof.
  destruct s as [|c s]; simpl; [discriminate|].
  destruct (Ascii.eqb c "/"); [discriminate|].
  destruct (splitSlash s); discriminate.
Qed.

Lemma splitSlash_no_slash s :
  Forall (λ e, strings_Contains e "/" = false) (splitSlash s).
Proof.
  induction s as [|c s IH]; simpl.
  - repeat constructor.
  - destruct (Ascii.eqb c "/") eqn:Hc.
    + constructor; [reflexivity | exact IH].
    + destruct (splitSlash s) as [|e es] eqn:Hs.
      * by destruct (splitSlash_nonempty s).
      * inversion IH as [|? ? He Hes]; subst. constructor; [|exact Hes].
        change (strings_Contains (String c e) "/")
          with (Ascii.eqb "/" c && true || strings_Contains e "/").
        by rewrite Ascii.eqb_sym, Hc, He.
Qed.

Lemma cleanElement_plain out e :
  Forall plainElement out → strings_Contains e "/" = false →
  Forall plainElement (cleanElement true out e).
Proof.
  intros Hout He. unfold cleanElement.
  destruct (String.eqb e "") eqn:E1; [exact Hout|].
  destruct (String.eqb e ".") eqn:E2; [exact Hout|]. simpl.
  destruct (String.eqb e "..") eqn:E3.
  - destruct out as [|top out']; [constructor|].
    inversion Hout as [|? ? Htop Hout']; subst.
    destruct (String.eqb top "..") eqn:E4; [|exact Hout'].
    apply String.eqb_eq in E4. by destruct Htop as (_ & _ & Hne & _).
  - constructor; [|exact Hout].
    apply String.eqb_neq in E1, E2, E3. by repeat split.
Qed.

Lemma cleaned_elements_plain p :
  Forall plainElement (rev (foldl (cleanElement true) [] (splitSlash p))).
Proof.
  apply Forall_rev.
  assert (Hgen : ∀ es out, Forall (λ e, strings_Contains e "/" = false) es →
                           Forall plainElement out →
                           Forall plainElement (foldl (cleanElement true) out es)).
  { induction es as [|e es IH]; intros out Hes Hout; simpl; [exact Hout|].
    inversion Hes; subst. apply IH; [assumption|]. by apply cleanElement_plain. }
  apply Hgen; [apply splitSlash_no_slash | constructor].
Qed.

Lemma joinSlash_cons_nonempty e es : e ≠ EmptyString → joinSlash (e :: es) ≠ EmptyString.
Proof.
  intros He. destruct e as [|c e]; [done|].
  destruct es; simpl; [discriminate|]. rewrite string_app_cons. discriminate.
Qed.

(** A rooted path, cleaned: the slash and the plain elements that are left. *)
Lemma path_Clean_rooted p :
  strings_HasPrefix p "/" = true →
  ∃ es, path_Clean p = "/" +:+ joinSlash es ∧ Forall plainElement es.
Proof.
  intros Hrooted. exists (rev (foldl (cleanElement true) [] (splitSlash p))).
  split; [|apply cleaned_elements_plain].
  unfold path_Clean. rewrite Hrooted. reflexivity.
Qed.

Lemma string_take_cons n c s :
  string_take n (String c s) = EmptyString
  ∨ ∃ s', string_take n (String c s) = String c s'.
Proof. destruct n; simpl; [by left | right; by eexists]. Qed.

Lemma string_eqb_app_slash s name :
  String.eqb (s +:+ "/" +:+ name) "/" = true → s = EmptyString ∧ name = EmptyString.
Proof.
  intros H. apply String.eqb_eq in H. destruct s as [|c s].
  - rewrite string_app_nil_l in H. injection H as H. by split.
  - rewrite string_app_cons in H. injection H as _ H.
    destruct s; discriminate.
Qed.

(** The name after the [.txt] rewriting, for a rooted clean path. *)
Lemma resolvedPath_txt p :
  strings_HasPrefix p "/" = true →
  strings_HasSuffix (path_Clean p) ".txt" = true →
  ∃ base, resolvedPath p = "ui/" +:+ base +:+ "/index.txt".
Proof.
  intros Hrooted Htxt. unfold resolvedPath. cbv zeta. rewrite Htxt.
  destruct (path_Clean_rooted p Hrooted) as (es & Hclean & _).
  set (base := strings_TrimSuffix (path_Clean p) ".txt").
  assert (Hbase : base = EmptyString ∨ ∃ b, base = String "/" b).
  { subst base. unfold strings_TrimSuffix. rewrite Htxt, Hclean.
    apply string_take_cons. }
  assert (Hbase' : ∃ b, (if String.eqb base "/" || String.eqb base "" then "/index" else base)
                        = String "/" b).
  { destruct Hbase as [-> | [b ->]]; [by exists "index"|].
    destruct (String.eqb (String "/" b) "/" || String.eqb (String "/" b) "");
      by eexists. }
  destruct Hbase' as [b ->]. exists b.
  destruct (String.eqb (String "/" b +:+ "/index.txt") "/") eqn:E.
  - change (String "/" b +:+ "/index.txt") with (String "/" b +:+ "/" +:+ "index.txt") in E.
    apply string_eqb_app_slash in E as [E _]. discriminate.
  - reflexivity.
Qed.

(** The dashboard serves from the bundle's [ui/] directory only: the name it
    looks up for a rooted request path starts with [ui/], and, unless the
    [.txt] rewriting applies, is [ui/] followed by elements joined with
    slashes none of which is empty, [.], [..] or holds a slash, however many
    [..] the request path has. *)
Theorem resolvedPath_under_ui (requestPath : string) :
  strings_HasPrefix requestPath "/" = true →
  strings_HasPrefix (resolvedPath requestPath) "ui/" = true
  ∧ (strings_HasSuffix (path_Clean requestPath) ".txt" = false →
     ∃ es, resolvedPath requestPath = "ui/" +:+ joinSlash es
           ∧ es ≠ [] ∧ Forall plainElement es).
Proof.
  intros Hrooted.
  destruct (strings_HasSuffix (path_Clean requestPath) ".txt") eqn:Htxt.
  - split; [|discriminate].
    destruct (resolvedPath_txt requestPath Hrooted Htxt) as [base ->]. reflexivity.
  - destruct (path_Clean_rooted requestPath Hrooted) as (es & Hclean & Hplain).
    assert (Hresolved : resolvedPath requestPath
                        = if String.eqb (path_Clean requestPath) "/" then "ui/index.html"
                          else "ui" +:+ path_Clean requestPath).
    { unfold resolvedPath. cbv zeta. rewrite Htxt. reflexivity. }
    rewrite Hresolved, Hclean.
    destruct es as [|e es].
    + split; [reflexivity|]. intros _. exists ["index.html"].
      split; [reflexivity|]. split; [discriminate|].
      constructor; [|constructor]. by repeat split.
    + assert (Hne : String.eqb ("/" +:+ joinSlash (e :: es)) "/" = false).
      { apply String.eqb_neq. intros Heq. injection Heq as Heq.
        inversion Hplain as [|? ? (He & _) _]; subst.
        by apply (joinSlash_cons_nonempty e es He). }
      rewrite Hne. split; [reflexivity|]. intros _. exists (e :: es).
      split; [reflexivity|]. split; [discriminate | exact Hplain].
Qed.

Lemma resolvedPath_under_ui_witness :
  resolvedPath "/assets/../../../etc/passwd" = "ui/etc/passwd"
  ∧ strings_HasPrefix (resolvedPath "/assets/../../../etc/passwd") "ui/" = true.
Proof.
  split; [vm_compute; reflexivity|].
  exact (proj1 (resolvedPath_under_ui "/assets/../../../etc/passwd" eq_refl)).
Defined.

Lemma filepath_Base_index x : filepath_Base (x +:+ "/index.txt") = "index.txt".
Proof.
  unfold filepath_Base.
  assert (Hne : String.eqb (x +:+ "/index.txt") "" = false).
  { destruct x; reflexivity. }
  rewrite Hne, string_rev_app.
  change (String.rev "/index.txt") with "txt.xedni/".
  reflexivity.
Qed.

(** A request whose clean path ends in [.txt] is looked up as
    [<page>/index.txt], a name with an extension: it is answered with that
    entry or with the 404 of a missing asset, never with an HTML fallback. *)
Theorem txt_request_has_no_fallback (h : UIHandler) (ctx : RequestCtx) :
  let requestPath := reqPath (ctxRequest ctx) in
  strings_HasPrefix requestPath "/" = true →
  strings_HasSuffix (path_Clean requestPath) ".txt" = true →
  strings_HasSuffix (resolvedPath requestPath) "/index.txt" = true
  ∧ isAsset (resolvedPath requestPath) = true
  ∧ serveDashboard h ctx
    = match ReadFile h (resolvedPath requestPath) with
      | Some data => sendFile (resolvedPath requestPath) data ctx
      | None => notFound ("404 - Static asset not found: " +:+ requestPath) ctx
      end.
Proof.
  intros requestPath Hrooted Htxt.
  destruct (resolvedPath_txt requestPath Hrooted Htxt) as [base Hresolved].
  assert (Hasset : isAsset (resolvedPath requestPath) = true).
  { rewrite Hresolved. unfold isAsset.
    rewrite <- string_app_assoc, filepath_Base_index. reflexivity. }
  split; [|split; [exact Hasset|]].
  - rewrite Hresolved. unfold strings_HasSuffix.
    rewrite <- string_app_assoc, string_rev_app. apply string_prefix_self_app.
  - rewrite serveDashboard_resolved. cbv zeta. fold requestPath.
    destruct (ReadFile h (resolvedPath requestPath)); [reflexivity|].
    rewrite Hasset. reflexivity.
Qed.

Lemma txt_request_has_no_fallback_witness :
  let h := NewUIHandler {[ "ui/index.html" := "<html>root</html>" ]} in
  let ctx := mkCtx (mkRequest "GET" "/logs.txt" "/logs.txt" [] [] [] [] "") emptyResponse [] in
  resolvedPath "/logs.txt" = "ui/logs/index.txt"
  ∧ serveDashboard h ctx = notFound "404 - Static asset not found: /logs.txt" ctx.
Proof.
  intros h ctx. split; [vm_compute; reflexivity|].
  destruct (txt_request_has_no_fallback h ctx eq_refl eq_refl) as (_ & _ & Hout).
  exact Hout.
Defined.

Lemma filepath_Ext_index x : filepath_Ext (x +:+ "/index.html") = ".html".
Proof.
  unfold filepath_Ext. rewrite string_rev_app.
  change (String.rev "/index.html") with "lmth.xedni/". reflexivity.
Qed.

Lemma sendFile_index x data ctx :
  let out := ctxResponse (sendFile (x +:+ "/index.html") data ctx) in
  respContentType out = "text/html; charset=utf-8"
  ∧ respBody out = BodyBytes data
  ∧ respStatusCode out = respStatusCode (ctxResponse ctx)
  ∧ peekArg "Cache-Control" (respHeader out)
    = if strings_HasPrefix (x +:+ "/index.html") "ui/_next/static/"
      then "public, max-age=31536000, immutable" else "no-cache".
Proof.
  cbv zeta. rewrite sendFile_body, sendFile_status. unfold sendFile. cbv zeta.
  rewrite filepath_Ext_index.
  change (mime_TypeByExtension ".html") with "text/html; charset=utf-8".
  change (String.eqb "text/html; charset=utf-8" "") with false.
  change (String.eqb ".html" ".html") with true. cbv iota.
  unfold SetResponseBody, ResponseHeaderSet, SetContentType, withResponse.
  destruct (strings_HasPrefix (x +:+ "/index.html") "ui/_next/static/");
    cbn [ctxResponse respHeader respContentType];
    (split; [reflexivity|]; split; [reflexivity|]; split; [reflexivity|]);
    apply peekArg_setArg_eq.
Qed.

(** A route without an extension that is not in the bundle is answered with
    an HTML document: the [index.html] below it when the bundle has one
    (never cached, unless it is under [ui/_next/static/]), else the root
    [ui/index.html] (never cached).  It is answered with a 404 only when the
    bundle has neither; so a bundle with a root document answers no such
    route with a 404. *)
Theorem spa_fallback_is_html (h : UIHandler) (ctx : RequestCtx) :
  let p := resolvedPath (reqPath (ctxRequest ctx)) in
  let out := ctxResponse (serveDashboard h ctx) in
  ReadFile h p = None →
  isAsset p = false →
  (ReadFile h (p +:+ "/index.html") = None ∧ ReadFile h "ui/index.html" = None
   ∧ serveDashboard h ctx = notFound "404 - File not found" ctx)
  ∨ (respContentType out = "text/html; charset=utf-8"
     ∧ respStatusCode out = respStatusCode (ctxResponse ctx)
     ∧ ((∃ data, ReadFile h (p +:+ "/index.html") = Some data
                 ∧ respBody out = BodyBytes data
                 ∧ peekArg "Cache-Control" (respHeader out)
                   = if strings_HasPrefix (p +:+ "/index.html") "ui/_next/static/"
                     then "public, max-age=31536000, immutable" else "no-cache")
        ∨ (∃ data, ReadFile h (p +:+ "/index.html") = None
                   ∧ ReadFile h "ui/index.html" = Some data
                   ∧ respBody out = BodyBytes data
                   ∧ peekArg "Cache-Control" (respHeader out) = "no-cache"))).
Proof.
  intros p out Hmissing Hasset. subst out.
  rewrite serveDashboard_resolved. cbv zeta. fold p. rewrite Hmissing, Hasset.
  destruct (ReadFile h (p +:+ "/index.html")) as [data|] eqn:Hindex.
  - right. destruct (sendFile_index p data ctx) as (Htype & Hbody & Hstatus & Hcache).
    split; [exact Htype|]. split; [exact Hstatus|]. left. exists data. auto.
  - destruct (ReadFile h "ui/index.html") as [data|] eqn:Hroot.
    + right. destruct (sendFile_index "ui" data ctx) as (Htype & Hbody & Hstatus & Hcache).
      split; [exact Htype|]. split; [exact Hstatus|]. right. exists data. auto.
    + left. auto.
Qed.

Lemma spa_fallback_is_html_witness :
  let h := NewUIHandler {[ "ui/index.html" := "<html>root</html>";
                           "ui/teams/index.html" := "<html>teams</html>" ]} in
  let ctx := mkCtx (mkRequest "GET" "/teams" "/teams" [] [] [] [] "") emptyResponse [] in
  let out := ctxResponse (serveDashboard h ctx) in
  respContentType out = "text/html; charset=utf-8"
  ∧ respStatusCode out = 200%Z
  ∧ respBody out = BodyBytes "<html>teams</html>".
Proof.
  intros h ctx out.
  destruct (spa_fallback_is_html h ctx eq_refl eq_refl)
    as [(Hnone & _) | (Htype & Hstatus & Hbody)].
  - vm_compute in Hnone. discriminate Hnone.
  - split; [exact Htype|]. split; [exact Hstatus|]. reflexivity.
Defined.

(** ** The constructors and the routes *)

(** A handler built by [NewUIHandler] has no configuration: its login answers
    every POST with 503, whatever the password, and its logout expires the
    cookie named [bf_admin].  The dashboard and the login page do not read
    the configuration: they answer as those of any handler with the same
    bundle. *)
Theorem NewUIHandler_has_no_login (uiContent : gmap string string) (ctx : RequestCtx) :
  loginSubmit (NewUIHandler uiContent) ctx
  = SendError ctx StatusServiceUnavailable "admin auth not configured"
  ∧ respCookies (ctxResponse (loginSubmit (NewUIHandler uiContent) ctx))
    = respCookies (ctxResponse ctx)
  ∧ mkCookie "bf_admin" "" "/" false (Some 0%Z) (-1)
    ∈ respCookies (ctxResponse (logout (NewUIHandler uiContent) ctx))
  ∧ ∀ config,
      serveDashboard (NewUIHandlerWithDeps uiContent config) ctx
      = serveDashboard (NewUIHandler uiContent) ctx
      ∧ loginPage (NewUIHandlerWithDeps uiContent config) ctx
        = loginPage (NewUIHandler uiContent) ctx.
Proof.
  split; [reflexivity|]. split; [reflexivity|]. split; [apply setCookie_In|].
  intros config. split; reflexivity.
Qed.

Lemma ChainMiddlewares_app_foldr {C R : Type} (handler : C → R)
    (outer inner : list ((C → R) → C → R)) :
  ChainMiddlewares handler (outer ++ inner)
  = ChainMiddlewares (ChainMiddlewares handler inner) outer.
Proof. rewrite !ChainMiddlewares_foldr. apply foldr_app. Qed.

(** Chains compose: to chain a handler that is itself a chain is to chain the
    handler once with the outer middlewares followed by the inner ones.  So a
    middleware wired around a chain runs before every middleware of it, and
    one added at the end of the list runs last, next to the handler. *)
Theorem ChainMiddlewares_app {C R : Type} (handler : C → R)
    (outer inner : list ((C → R) → C → R)) :
  ChainMiddlewares (ChainMiddlewares handler inner) outer
  = ChainMiddlewares handler (outer ++ inner)
  ∧ (∀ m, ChainMiddlewares handler (outer ++ [m])
          = ChainMiddlewares (m handler) outer)
  ∧ (∀ s s', forwardsAll outer s s' →
             ChainMiddlewares handler (outer ++ inner) s
             = ChainMiddlewares handler inner s').
Proof.
  split; [by rewrite ChainMiddlewares_app_foldr|]. split.
  - intros m. by rewrite ChainMiddlewares_app_foldr.
  - intros s s' Hall. rewrite ChainMiddlewares_app_foldr.
    rewrite (ChainMiddlewares_foldr _ outer). by apply forwardsAll_foldr.
Qed.


(** ** The plugin interceptor *)

(** *** The header collection after reconciliation *)


Lemma findArg_cons key k v h :
  findArg key ((k, v) :: h) = if String.eqb k key then Some v else findArg key h.
Proof. unfold findArg. simpl. destruct (String.eqb k key); reflexivity. Qed.

Lemma findArg_None key h : findArg key h = None ↔ key ∉ map fst h.
Proof.
  induction h as [|[k v] h IH].
  - split; [intros _; apply not_elem_of_nil | reflexivity].
  - rewrite findArg_cons. simpl. rewrite not_elem_of_cons.
    destruct (String.eqb k key) eqn:E.
    + apply String.eqb_eq in E. subst k. split; [discriminate | intros [Hne _]; congruence].
    + apply String.eqb_neq in E. rewrite IH. split; [intros Hnot; split; congruence | tauto].
Qed.



(** A name that the final map has keeps its pairs through the deletions. *)
Lemma findArg_deletions_kept (headers : gomap string) names key h :
  is_Some (mapGet key headers) →
  findArg key
    (foldl (λ h name, if mapGet name headers is Some _ then h else delAllArgs name h) h names)
  = findArg key h.
Proof.
  intros [v Hv]. revert h. induction names as [|name names IH]; intros h; simpl.
  - reflexivity.
  - rewrite IH. destruct (mapGet name headers) eqn:Hname; [reflexivity|].
    apply findArg_delAllArgs_ne. intros ->. congruence.
Qed.


(** Setting the pairs of a list with distinct names: a name of the list gets
    its value, any other name keeps what it had. *)
Lemma findArg_sets (l : list (string * string)) key h :
  NoDup (map fst l) →
  findArg key (foldl (λ h kv, setArg (fst kv) (snd kv) h) h l)
  = match findArg key l with
    | Some v => Some v
    | None => findArg key h
    end.
Proof.
  revert h. induction l as [|[k v] l IH]; intros h Hnd.
  - reflexivity.
  - simpl in Hnd. apply NoDup_cons in Hnd as [Hk Hnd].
    simpl. rewrite IH by exact Hnd. rewrite findArg_cons.
    destruct (String.eqb k key) eqn:E.
    + apply String.eqb_eq in E. subst k.
      apply findArg_None in Hk. rewrite Hk. apply findArg_setArg_eq.
    + apply String.eqb_neq in E. destruct (findArg key l); [reflexivity|].
      by apply findArg_setArg_ne.
Qed.



(** *** The plugin loop *)




Lemma sameWorking_refl w : sameWorking w w.
Proof. repeat split; reflexivity. Qed.









(** *** The reconciliation keeps the exchange of two runs in step *)





(** *** [json.Marshal] never writes an empty text *)



(** *** The middleware once the governance plugin is found *)

Lemma hasGovernance_nonempty plugins : hasGovernance plugins = true → length plugins ≠ 0.
Proof. destruct plugins; [discriminate | simpl; lia]. Qed.

Section Interceptor.
Variable json_Unmarshal : string → result (gomap any).
Local Abbreviation Middleware := (TransportInterceptorMiddleware json_Unmarshal).

Lemma interceptor_run config next ctx :
  hasGovernance (GetLoadedPlugins config) = true →
  Middleware config next ctx =
  match decodeBody json_Unmarshal ctx with
  | Err err =>
      next (logger_Warn
              ("TransportInterceptor: Failed to unmarshal request body: " +:+ err) ctx)
  | Ok requestBody =>
      let w := interceptAll (GetLoadedPlugins config) (initialWorking ctx requestBody) in
      match json_Marshal (wBody w) with
      | Err err =>
          SendError (wCtx w) StatusInternalServerError
            ("TransportInterceptor: Failed to marshal request body: " +:+ err)
      | Ok updatedBody =>
          next (setModified (wHeaders w)
                  (deleteRemoved (wHeaders w) (snd (parseHeaders (reqHeader (ctxRequest ctx))))
                     (RequestSetBody updatedBody (wCtx w))))
      end
  end.
Proof.
  intros Hgov. unfold TransportInterceptorMiddleware.
  destruct (decide (length (GetLoadedPlugins config) = 0)) as [Hnil|_].
  - by apply hasGovernance_nonempty in Hgov.
  - rewrite Hgov. reflexivity.
Qed.







End Interceptor.

(** *** The interceptor on concrete requests *)







(** The interceptor leaves the request alone when no plugin is loaded or
    the governance plugin is not among the loaded ones (the body is not even
    decoded), and when the body has bytes that do not decode: then it logs a
    warning and hands the request on as it came. *)
Theorem interceptor_passes_through (json_Unmarshal : string → result (gomap any))
    (config : Config) (ctx : RequestCtx) :
  (hasGovernance (GetLoadedPlugins config) = false →
     forwards (TransportInterceptorMiddleware json_Unmarshal config) ctx ctx)
  ∧ (∀ err, hasGovernance (GetLoadedPlugins config) = true →
       reqBody (ctxRequest ctx) ≠ EmptyString →
       json_Unmarshal (reqBody (ctxRequest ctx)) = Err err →
       forwards (TransportInterceptorMiddleware json_Unmarshal config) ctx
         (logger_Warn ("TransportInterceptor: Failed to unmarshal request body: " +:+ err)
            ctx)).
Proof.
  split.
  - intros Hgov next. unfold TransportInterceptorMiddleware.
    destruct (decide (length (GetLoadedPlugins config) = 0)); [reflexivity|].
    rewrite Hgov. reflexivity.
  - intros err Hgov Hbody Herr next. rewrite interceptor_run by exact Hgov.
    unfold decodeBody.
    destruct (decide (0 < String.length (reqBody (ctxRequest ctx)))) as [_|Hlen].
    + rewrite Herr. reflexivity.
    + destruct (reqBody (ctxRequest ctx)); [congruence | simpl in Hlen; lia].
Qed.

Lemma interceptor_passes_through_witness :
  let decoder (_ : string) : result (gomap any) := Err "invalid character 'o' in literal" in
  let governance := mkPlugin governance_PluginName (λ _ hs b, mkIntercepted hs b None) in
  let audit := mkPlugin "audit" (λ _ hs b, mkIntercepted hs b None) in
  let ctx := mkCtx (mkRequest "POST" "/v1/embeddings" "/v1/embeddings" [] [] [] [] "not json")
               emptyResponse [] in
  forwards (TransportInterceptorMiddleware decoder (mkConfig "" "" [audit])) ctx ctx
  ∧ forwards (TransportInterceptorMiddleware decoder (mkConfig "" "" [governance])) ctx
      (logger_Warn "TransportInterceptor: Failed to unmarshal request body: invalid character 'o' in literal"
         ctx).
Proof.
  intros decoder governance audit ctx. split.
  - apply (interceptor_passes_through decoder (mkConfig "" "" [audit]) ctx). reflexivity.
  - apply (interceptor_passes_through decoder (mkConfig "" "" [governance]) ctx);
      [reflexivity | discriminate | reflexivity].
Defined.

(** The scenario of two plugins: the first renames the header [X-Old] to
    [X-New], the second adds the body field [trace_id].  The request is
    handed on with [X-New] set, [X-Old] gone, the other headers as they were,
    and a body that holds the original field and [trace_id]. *)
Theorem rename_then_trace_scenario :
  let original : gmap string any := {[ "model" := AString "gpt-4o" ]} in
  let decoder (body : string) : result (gomap any) :=
    if String.eqb body ("{" +:+ encodeString "model" +:+ ":" +:+ encodeString "gpt-4o" +:+ "}")
    then Ok (Some original) else Err "unexpected end of JSON input" in
  let rename := mkPlugin governance_PluginName
    (λ _ hs b,
       mkIntercepted
         ((λ m : gmap string string,
             match m !! "X-Old" with
             | Some v => <["X-New" := v]> (delete "X-Old" m)
             | None => m
             end) <$> hs)
         b None) in
  let trace := mkPlugin "trace"
    (λ _ hs b, mkIntercepted hs ((λ m : gmap string any, <["trace_id" := AString "t-1"]> m) <$> b) None) in
  let config := mkConfig "" "" [rename; trace] in
  let ctx := mkCtx (mkRequest "POST" "/v1/chat/completions" "/v1/chat/completions"
                      [("Accept", "*/*"); ("X-Old", "7")] [] [] []
                      ("{" +:+ encodeString "model" +:+ ":" +:+ encodeString "gpt-4o" +:+ "}"))
               emptyResponse [] in
  let forwarded := TransportInterceptorMiddleware decoder config (λ c, c) ctx in
  RequestHeaderPeek "X-New" forwarded = "7"
  ∧ findArg "X-Old" (reqHeader (ctxRequest forwarded)) = None
  ∧ RequestHeaderPeek "Accept" forwarded = "*/*"
  ∧ reqBody (ctxRequest forwarded)
    = "{" +:+ encodeString "model" +:+ ":" +:+ encodeString "gpt-4o" +:+ ","
      +:+ encodeString "trace_id" +:+ ":" +:+ encodeString "t-1" +:+ "}"
  ∧ ctxResponse forwarded = emptyResponse
  ∧ ctxWarnings forwarded = [].
Proof.
  vm_compute. repeat split.
Qed.

(** ** Headers the plugins leave alone *)














Section InterceptorHeaders.
Variable json_Unmarshal : string → result (gomap any).
Local Abbreviation Middleware := (TransportInterceptorMiddleware json_Unmarshal).


End InterceptorHeaders.


(** ** The CORS middleware *)

Lemma corsHeaders_NoDup origin : NoDup (map fst (corsHeaders origin)).
Proof. apply (bool_decide_unpack _). vm_compute. reflexivity. Qed.

(** The response headers after the five [Set] calls read as [corsHeaders] on
    its names, and as before on every other name. *)
Lemma corsHeaders_set origin ctx name :
  findArg name
    (respHeader (ctxResponse
       (foldl (λ c kv, ResponseHeaderSet (fst kv) (snd kv) c) ctx (corsHeaders origin))))
  = match findArg name (corsHeaders origin) with
    | Some v => Some v
    | None => findArg name (respHeader (ctxResponse ctx))
    end.
Proof.
  rewrite <- (findArg_sets (corsHeaders origin) name (respHeader (ctxResponse ctx)))
    by apply corsHeaders_NoDup.
  reflexivity.
Qed.

Lemma corsHeaders_same origin ctx :
  sameButResponseHeaders
    (foldl (λ c kv, ResponseHeaderSet (fst kv) (snd kv) c) ctx (corsHeaders origin)) ctx.
Proof. repeat split. Qed.

Section CorsProperties.
Variable IsOriginAllowed : string → list string → bool.
Variable AllowedOrigins : Config → list string.
Local Abbreviation Cors := (CorsMiddleware IsOriginAllowed AllowedOrigins).

Lemma CorsMiddleware_run config next ctx :
  Cors config next ctx =
  let origin := RequestHeaderPeek "Origin" ctx in
  let allowed := IsOriginAllowed origin (AllowedOrigins config) in
  let ctx' :=
    if allowed
    then foldl (λ c kv, ResponseHeaderSet (fst kv) (snd kv) c) ctx (corsHeaders origin)
    else ctx in
  if String.eqb (reqMethod (ctxRequest ctx)) "OPTIONS"
  then SetStatusCode (if allowed then StatusOK else StatusForbidden) ctx'
  else next ctx'.
Proof.
  unfold CorsMiddleware. cbv zeta.
  destruct (IsOriginAllowed _ _); reflexivity.
Qed.

(** A preflight request ([OPTIONS]) is answered by [CorsMiddleware] itself,
    whatever the next stage is: with 200 and the five CORS headers when the
    origin is allowed, with 403 and the headers as they were when it is not.
    The request, the body, the cookies and the log are left alone. *)
Theorem CorsMiddleware_preflight (config : Config) (ctx : RequestCtx) :
  reqMethod (ctxRequest ctx) = "OPTIONS" →
  let origin := RequestHeaderPeek "Origin" ctx in
  let allowed := IsOriginAllowed origin (AllowedOrigins config) in
  shortCircuits (Cors config) ctx
  ∧ ∀ next,
      let out := Cors config next ctx in
      respStatusCode (ctxResponse out) = (if allowed then 200 else 403)%Z
      ∧ ctxRequest out = ctxRequest ctx
      ∧ ctxWarnings out = ctxWarnings ctx
      ∧ respBody (ctxResponse out) = respBody (ctxResponse ctx)
      ∧ respCookies (ctxResponse out) = respCookies (ctxResponse ctx)
      ∧ (allowed = false → respHeader (ctxResponse out) = respHeader (ctxResponse ctx))
      ∧ (allowed = true →
         ∀ name,
           findArg name (respHeader (ctxResponse out))
           = match findArg name (corsHeaders origin) with
             | Some v => Some v
             | None => findArg name (respHeader (ctxResponse ctx))
             end).
Proof.
  intros Hmethod origin allowed. split.
  - intros next next'. rewrite !CorsMiddleware_run. cbv zeta. rewrite Hmethod. reflexivity.
  - intros next out. subst out. rewrite CorsMiddleware_run. cbv zeta.
    fold origin. fold allowed. rewrite Hmethod. simpl String.eqb. cbv iota.
    destruct allowed.
    + repeat split; try discriminate. intros _ name.
      apply (corsHeaders_set origin ctx name).
    + repeat split; discriminate.
Qed.

(** Any other request is handed to the next stage, whatever its origin: as it
    came when the origin is not allowed, and with the five CORS headers set on
    the response (the origin itself as the allowed origin, never a wildcard of
    the middleware's own) when it is.  Nothing but the response headers
    changes. *)
Theorem CorsMiddleware_passes (config : Config) (ctx : RequestCtx) :
  reqMethod (ctxRequest ctx) ≠ "OPTIONS" →
  let origin := RequestHeaderPeek "Origin" ctx in
  let allowed := IsOriginAllowed origin (AllowedOrigins config) in
  ∃ ctx',
    forwards (Cors config) ctx ctx'
    ∧ sameButResponseHeaders ctx' ctx
    ∧ (allowed = false → ctx' = ctx)
    ∧ (allowed = true →
       peekArg "Access-Control-Allow-Origin" (respHeader (ctxResponse ctx')) = origin
       ∧ ∀ name,
           findArg name (respHeader (ctxResponse ctx'))
           = match findArg name (corsHeaders origin) with
             | Some v => Some v
             | None => findArg name (respHeader (ctxResponse ctx))
             end).
Proof.
  intros Hmethod origin allowed. apply String.eqb_neq in Hmethod.
  exists (if allowed
          then foldl (λ c kv, ResponseHeaderSet (fst kv) (snd kv) c) ctx (corsHeaders origin)
          else ctx).
  split; [|split; [|split]].
  - intros next. rewrite CorsMiddleware_run. cbv zeta. rewrite Hmethod.
    fold origin. fold allowed. reflexivity.
  - destruct allowed; [apply corsHeaders_same | repeat split].
  - intros ->. reflexivity.
  - intros ->. split.
    + unfold peekArg. rewrite (corsHeaders_set origin ctx). reflexivity.
    + intros name. apply (corsHeaders_set origin ctx name).
Qed.

End CorsProperties.

Lemma CorsMiddleware_preflight_witness :
  let allow (origin : string) (origins : list string) := bool_decide (origin ∈ origins) in
  let origins (_ : Config) := ["https://console.example"] in
  let config := mkConfig "s3cr3t" "bf_admin" [] in
  let ctx := mkCtx (mkRequest "OPTIONS" "/api/keys" "/api/keys"
                      [("Origin", "https://elsewhere.example")] [] [] [] "")
               emptyResponse [] in
  let out := CorsMiddleware allow origins config (SetBodyString "next stage") ctx in
  respStatusCode (ctxResponse out) = 403%Z
  ∧ respBody (ctxResponse out) = BodyBytes "".
Proof.
  intros allow origins config ctx out.
  destruct (CorsMiddleware_preflight allow origins config ctx eq_refl) as [_ Hout].
  destruct (Hout (SetBodyString "next stage")) as (Hstatus & _ & _ & Hbody & _).
  split; [exact Hstatus | exact Hbody].
Defined.

Lemma CorsMiddleware_passes_witness :
  let allow (origin : string) (origins : list string) := bool_decide (origin ∈ origins) in
  let origins (_ : Config) := ["https://console.example"] in
  let config := mkConfig "s3cr3t" "bf_admin" [] in
  let ctx := mkCtx (mkRequest "GET" "/api/keys" "/api/keys"
                      [("Origin", "https://console.example")] [] [] [] "")
               emptyResponse [] in
  ∃ ctx',
    forwards (CorsMiddleware allow origins config) ctx ctx'
    ∧ peekArg "Access-Control-Allow-Origin" (respHeader (ctxResponse ctx'))
      = "https://console.example".
Proof.
  intros allow origins config ctx.
  assert (Hmethod : reqMethod (ctxRequest ctx) ≠ "OPTIONS") by discriminate.
  destruct (CorsMiddleware_passes allow origins config ctx Hmethod)
    as (ctx' & Hforwards & _ & _ & Hallowed).
  exists ctx'. split; [exact Hforwards|].
  exact (proj1 (Hallowed eq_refl)).
Defined.

(** ** The argument parsing of the entry point *)

Lemma parse_args_round_other p1 rest env out :
  isOption p1 = false →
  parse_args_round (mkShell (p1 :: rest) env out)
  = Continue (mkShell (rest ++ [p1]) env out).
Proof.
  unfold isOption, parse_args_round. simpl shParams. cbv iota.
  rewrite !orb_false_iff. intros (((-> & ->) & ->) & ->). reflexivity.
Qed.

Lemma parse_args_round_option flag value rest env out :
  isOption flag = true → value ≠ EmptyString →
  parse_args_round (mkShell (flag :: value :: rest) env out)
  = Continue (mkShell rest (<[optionVariable flag := value]> env) out).
Proof.
  intros Hflag Hvalue. apply String.eqb_neq in Hvalue.
  unfold isOption in Hflag. unfold parse_args_round, optionVariable, takeValue.
  simpl shParams. cbv iota.
  destruct (String.eqb flag "--port" || String.eqb flag "-port") eqn:Hport.
  - simpl. rewrite Hvalue. reflexivity.
  - simpl in Hflag. rewrite Hflag.
    simpl. rewrite Hvalue. reflexivity.
Qed.

Lemma parse_args_round_missing flag rest env out :
  isOption flag = true →
  default EmptyString (rest !! 0) = EmptyString →
  parse_args_round (mkShell (flag :: rest) env out)
  = Exited 1 (mkShell (flag :: rest) env
                (out ++ ["Error: " +:+ (if String.eqb (optionVariable flag) "APP_PORT"
                                        then "--port" else "--host")
                         +:+ " requires a value"])).
Proof.
  intros Hflag Hvalue.
  unfold isOption in Hflag. unfold parse_args_round, optionVariable, takeValue.
  simpl shParams. cbv iota.
  change ((flag :: rest) !! 1) with (rest !! 0).
  destruct (String.eqb flag "--port" || String.eqb flag "-port") eqn:Hport.
  - rewrite Hvalue. reflexivity.
  - simpl in Hflag. rewrite Hflag.
    rewrite Hvalue. reflexivity.
Qed.

(** [parse_args] does not return on a command line without options: an
    argument that is none of [--port], [-port], [--host], [-host] is put
    back at the end of the parameters, so that their number never goes
    down.  However many rounds the loop is given, it is still going; and
    the script, which calls the function when it has two arguments or more,
    does not get past it.  With fewer than two arguments the function is
    not called and nothing is exported. *)
Theorem parse_args_never_returns (s : Shell) :
  shParams s ≠ [] →
  Forall (λ p, isOption p = false) (shParams s) →
  (∀ fuel, parse_args fuel s = None)
  ∧ (1 < length (shParams s) → ∀ fuel, entrypoint_args fuel s = None)
  ∧ (length (shParams s) = 1 → ∀ fuel, entrypoint_args fuel s = Some (Ended s)).
Proof.
  intros Hne Hall.
  assert (Hloop : ∀ fuel params env out,
            params ≠ [] → Forall (λ p, isOption p = false) params →
            parse_args fuel (mkShell params env out) = None).
  { induction fuel as [|fuel IH]; intros params env out Hparams Hother; [reflexivity|].
    destruct params as [|p1 rest]; [done|]. simpl.
    inversion Hother as [|? ? Hp1 Hrest]; subst.
    rewrite parse_args_round_other by exact Hp1.
    apply IH; [by destruct rest | ].
    apply Forall_app. split; [exact Hrest | by constructor]. }
  destruct s as [params env out]. simpl in *.
  split; [intros fuel; by apply Hloop|]. split.
  - intros Hlen fuel. unfold entrypoint_args. simpl.
    destruct (decide (1 < length params)); [|lia]. by rewrite Hloop.
  - intros Hlen fuel. unfold entrypoint_args. simpl.
    destruct (decide (1 < length params)); [lia | reflexivity].
Qed.

Lemma parse_args_never_returns_witness :
  ∃ s, shParams s = ["-log-level"; "debug"]
       ∧ parse_args 1000 s = None
       ∧ entrypoint_args 1000 s = None.
Proof.
  exists (mkShell ["-log-level"; "debug"] {[ "APP_PORT" := "8080" ]} []).
  assert (Hne : shParams (mkShell ["-log-level"; "debug"] {[ "APP_PORT" := "8080" ]} []) ≠ [])
    by discriminate.
  assert (Hall : Forall (λ p, isOption p = false)
                   (shParams (mkShell ["-log-level"; "debug"] {[ "APP_PORT" := "8080" ]} []))).
  { repeat constructor. }
  destruct (parse_args_never_returns _ Hne Hall) as (Hloop & Hscript & _).
  split; [reflexivity|]. split; [apply Hloop | apply Hscript; simpl; lia].
Defined.

Lemma optionVariable_port p :
  optionVariable p = "APP_PORT" ∨ optionVariable p = "APP_HOST".
Proof. unfold optionVariable. destruct (_ || _); auto. Qed.

(** On a command line made of options with their values, none of them
    empty, [parse_args] returns after one round for each option, with every
    value exported under [APP_PORT] or [APP_HOST] (the last one given wins)
    and the other variables as they were; the script then has its own
    parameters back, and its last line hands the exported values to
    [/app/main].  An option at the end of the line, or one followed by an
    empty word, ends the script with status 1 and an error line. *)
Theorem parse_args_exports_options (opts : list (string * string)) (s : Shell) :
  Forall (λ o, isOption (fst o) = true ∧ snd o ≠ EmptyString) opts →
  shParams s = optionWords opts →
  let env' := exported opts (shEnv s) in
  parse_args (S (length opts)) s = Some (Ended (mkShell [] env' (shOut s)))
  ∧ (opts ≠ [] →
     entrypoint_args (S (length opts)) s = Some (Ended (mkShell (shParams s) env' (shOut s))))
  ∧ (∀ name, name ≠ "APP_PORT" → name ≠ "APP_HOST" → shVar name env' = shVar name (shEnv s))
  ∧ main_command env'
    = [ "/app/main"; "-app-dir"; shVar "APP_DIR" (shEnv s);
        "-port"; shVar "APP_PORT" env'; "-host"; shVar "APP_HOST" env';
        "-log-level"; shVar "LOG_LEVEL" (shEnv s);
        "-log-style"; shVar "LOG_STYLE" (shEnv s) ]
  ∧ (∀ flag rest, isOption flag = true → default EmptyString (rest !! 0) = EmptyString →
       ∃ line,
         parse_args (S (S (length opts)))
           (mkShell (optionWords opts ++ flag :: rest) (shEnv s) (shOut s))
         = Some (Exited 1 (mkShell (flag :: rest) env' (shOut s ++ [line])))).
Proof.
  intros Hopts Hparams env'.
  assert (Hrun : ∀ opts env out tail k,
            Forall (λ o, isOption (fst o) = true ∧ snd o ≠ EmptyString) opts →
            parse_args (length opts + k) (mkShell (optionWords opts ++ tail) env out)
            = parse_args k (mkShell tail (exported opts env) out)).
  { clear. induction opts as [|[flag value] opts IH]; intros env out tail k Hopts.
    - reflexivity.
    - inversion Hopts as [|? ? [Hflag Hvalue] Hrest]; subst. simpl in Hflag, Hvalue.
      change (length ((flag, value) :: opts) + k) with (S (length opts + k)).
      change (optionWords ((flag, value) :: opts) ++ tail)
        with (flag :: value :: (optionWords opts ++ tail)).
      change (parse_args (S (length opts + k))
                (mkShell (flag :: value :: (optionWords opts ++ tail)) env out))
        with (match parse_args_round
                      (mkShell (flag :: value :: (optionWords opts ++ tail)) env out) with
              | Continue s' => parse_args (length opts + k) s'
              | stopped => Some stopped
              end).
      rewrite parse_args_round_option by assumption.
      by rewrite IH. }
  assert (Hkept : ∀ name, name ≠ "APP_PORT" → name ≠ "APP_HOST" →
            shVar name env' = shVar name (shEnv s)).
  { intros name Hport Hhost. subst env'. unfold shVar. f_equal.
    generalize (shEnv s). clear -Hport Hhost.
    induction opts as [|o opts IH]; intros env; [reflexivity|].
    simpl. rewrite IH. apply lookup_insert_ne.
    destruct (optionVariable_port (fst o)) as [-> | ->]; congruence. }
  assert (Hparse : parse_args (S (length opts)) s = Some (Ended (mkShell [] env' (shOut s)))).
  { destruct s as [params env out]. simpl in Hparams. subst params.
    rewrite <- (app_nil_r (optionWords opts)), <- Nat.add_1_r.
    rewrite Hrun by exact Hopts. reflexivity. }
  split; [exact Hparse|]. split; [|split; [exact Hkept|split]].
  - intros Hne. unfold entrypoint_args.
    destruct (decide (1 < length (shParams s))) as [_|Hshort].
    + rewrite Hparse. reflexivity.
    + destruct Hshort. rewrite Hparams. destruct opts as [|o opts]; [done|]. simpl. lia.
  - unfold main_command.
    rewrite (Hkept "APP_DIR"), (Hkept "LOG_LEVEL"), (Hkept "LOG_STYLE") by discriminate.
    reflexivity.
  - intros flag rest Hflag Hmissing. eexists.
    replace (S (S (length opts))) with (length opts + 2) by lia.
    rewrite Hrun by exact Hopts.
    change (parse_args 2 (mkShell (flag :: rest) (exported opts (shEnv s)) (shOut s)))
      with (match parse_args_round
                    (mkShell (flag :: rest) (exported opts (shEnv s)) (shOut s)) with
            | Continue s' => parse_args 1 s'
            | stopped => Some stopped
            end).
    rewrite parse_args_round_missing by assumption. reflexivity.
Qed.

Lemma parse_args_exports_options_witness :
  let s := mkShell ["--port"; "9090"; "-host"; "0.0.0.0"; "-port"; "9191"]
             {[ "APP_DIR" := "/app/data"; "APP_PORT" := "8080"; "LOG_LEVEL" := "info" ]} [] in
  ∃ env',
    entrypoint_args 4 s = Some (Ended (mkShell (shParams s) env' []))
    ∧ main_command env'
      = [ "/app/main"; "-app-dir"; "/app/data"; "-port"; "9191"; "-host"; "0.0.0.0";
          "-log-level"; "info"; "-log-style"; "" ].
Proof.
  intros s.
  assert (Hopts : Forall (λ o, isOption (fst o) = true ∧ snd o ≠ EmptyString)
                    [("--port", "9090"); ("-host", "0.0.0.0"); ("-port", "9191")]).
  { repeat constructor; discriminate. }
  destruct (parse_args_exports_options
              [("--port", "9090"); ("-host", "0.0.0.0"); ("-port", "9191")] s Hopts eq_refl)
    as (_ & Hscript & _ & _ & _).
  eexists. split; [apply Hscript; discriminate|].
  vm_compute. reflexivity.
Defined.
